(** * Location Explorer: the query composer and the grounding client

    A shallow embedding of the two pieces of first-party logic of the
    application:

    - [getPlaceInfo] (services/geminiService.ts): one call to the
      generative API, then the extraction of the summary and of the
      deduplicated list of grounding links;
    - [handleSearch] (App.tsx): the search handler of the UI controller,
      which refuses or composes the prompt, calls [getPlaceInfo] and
      stores the outcome in the UI state.

    JavaScript strings are sequences of UTF-16 code units; they are
    modelled as lists of code units, so that [trim], [includes] and
    string concatenation are the list functions one expects. *)

From Stdlib Require Import List PeanoNat NArith Bool String Ascii DecimalString PrimFloat Lia.
Import ListNotations.

Set Warnings "-inexact-float".

Set Implicit Arguments.

(** ** JavaScript strings *)

Definition jsstring : Type := list N.

Module Js.

(** An ASCII literal of the source, as code units. *)
Definition lit (s : string) : jsstring :=
  List.map N_of_ascii (list_ascii_of_string s).

(** The double quote, U+0022. *)
Definition dquote : N := 34%N.

Fixpoint eqb (s t : jsstring) : bool :=
  match s, t with
  | [], [] => true
  | c :: s', d :: t' => N.eqb c d && eqb s' t'
  | _, _ => false
  end.

(** ToBoolean on a string: the empty string is the only falsy one. *)
Definition truthy (s : jsstring) : bool :=
  match s with [] => false | _ :: _ => true end.

(** ToBoolean on an optional string ([undefined] is falsy). *)
Definition truthy_opt (o : option jsstring) : bool :=
  match o with None => false | Some s => truthy s end.

(** WhiteSpace and LineTerminator code points of ECMAScript, the ones
    [String.prototype.trim] strips: TAB, LF, VT, FF, CR, SP, NBSP, the
    other Zs space separators, LS, PS and the BOM. *)
Definition isWhiteSpace (c : N) : bool :=
  ((9 <=? c) && (c <=? 13)
   || (c =? 32) || (c =? 160) || (c =? 5760)
   || (8192 <=? c) && (c <=? 8202)
   || (c =? 8232) || (c =? 8233) || (c =? 8239) || (c =? 8287)
   || (c =? 12288) || (c =? 65279))%N.

Fixpoint trimStart (s : jsstring) : jsstring :=
  match s with
  | [] => []
  | c :: s' => if isWhiteSpace c then trimStart s' else s
  end.

Definition trimEnd (s : jsstring) : jsstring := rev (trimStart (rev s)).

Definition trim (s : jsstring) : jsstring := trimEnd (trimStart s).

(** [String.prototype.toLowerCase] on the Basic Latin block; the only
    strings the program lowers are the labels of [filterOptions], which
    are ASCII. *)
Definition lowerUnit (c : N) : N :=
  if ((65 <=? c) && (c <=? 90))%N then (c + 32)%N else c.

Definition toLowerCase (s : jsstring) : jsstring := List.map lowerUnit s.

Fixpoint startsWith (s t : jsstring) {struct t} : bool :=
  match t, s with
  | [], _ => true
  | _ :: _, [] => false
  | d :: t', c :: s' => N.eqb c d && startsWith s' t'
  end.

(** [s.includes(t)]: [t] occurs in [s] as a contiguous run. *)
Fixpoint includes (s t : jsstring) : bool :=
  startsWith s t ||
  match s with
  | [] => false
  | _ :: s' => includes s' t
  end.

(** The same as a proposition. *)
Definition Contains (s t : jsstring) : Prop :=
  exists pre post, s = pre ++ t ++ post.

End Js.

(** ** The insertion-ordered [Map] of JavaScript, string keys

    [set] on a key that is present replaces the value and keeps the
    position of the key; on a new key it appends the entry. *)

Module JsMap.

Section WithValues.
Variable V : Type.

Definition t := list (jsstring * V).

Fixpoint set (k : jsstring) (v : V) (m : t) : t :=
  match m with
  | [] => [(k, v)]
  | (k', v') :: m' =>
      if Js.eqb k k' then (k', v) :: m' else (k', v') :: set k v m'
  end.

(** [new Map(iterable)]: the entries are [set] one after the other. *)
Definition from_entries (es : list (jsstring * V)) : t :=
  fold_left (fun m e => set (fst e) (snd e) m) es [].

(** [Array.from(m.values())] *)
Definition values (m : t) : list V := List.map snd m.

Definition keys (m : t) : list jsstring := List.map fst m.

Fixpoint get (k : jsstring) (m : t) : option V :=
  match m with
  | [] => None
  | (k', v) :: m' => if Js.eqb k k' then Some v else get k m'
  end.

End WithValues.

End JsMap.

(** ** types.ts *)

Record GroundingUrl := {
  uri : jsstring;
  title : option jsstring
}.

Record Place := {
  name : jsstring;
  address : jsstring;
  description : jsstring;
  category : jsstring;
  website : option jsstring
}.

(** Line 111 of the service: [urls.map((item) => [item.uri, item])], the
    entries of the map. *)
Definition urlEntries (urls : list GroundingUrl) : list (jsstring * GroundingUrl) :=
  List.map (fun item => (uri item, item)) urls.

(** Line 111 of the service: the candidate links keyed by URI in a [Map],
    then the values of the map. *)
Definition uniqueUrls (urls : list GroundingUrl) : list GroundingUrl :=
  JsMap.values (JsMap.from_entries (urlEntries urls)).

Record LatLng := {
  latitude : float;
  longitude : float
}.

Record MapsGroundingResult := {
  summary : jsstring;
  places : list Place;
  urls : list GroundingUrl
}.

(** ** The response of the generative API, as the service reads it

    Every field the service guards with a presence check or an optional
    chain is optional here; [None] is JavaScript's [undefined]. *)

Record ReviewSnippet := {
  snippet_uri : option jsstring
}.

Record PlaceAnswerSource := {
  reviewSnippets : option (list ReviewSnippet)
}.

(** The value of [placeAnswerSources]: the array of sources that line 97
    iterates, or the single object that the client library declares for
    the field (a flag URI and the review snippets), which cannot be
    iterated. *)
Inductive PlaceAnswerSources :=
| SourcesArray (sources : list PlaceAnswerSource)
| SourcesObject (flagContentUri : option jsstring)
                (snippets : option (list ReviewSnippet)).

Record GroundingChunkMaps := {
  maps_uri : option jsstring;
  maps_title : option jsstring;
  placeAnswerSources : option PlaceAnswerSources
}.

Record GroundingChunk := {
  maps : option GroundingChunkMaps
}.

Record GroundingMetadata := {
  groundingChunks : option (list GroundingChunk)
}.

Record Candidate := {
  groundingMetadata : option GroundingMetadata
}.

(** [text] is a getter of the client library; it yields [undefined] when
    the response carries no text part. *)
Record GenerateContentResponse := {
  text : option jsstring;
  candidates : option (list Candidate)
}.

(** ** Thrown values, the request, and the effects of a call *)

(** What a [catch] clause can receive: an instance of [Error] with its
    message, or any other value. *)
Inductive JsThrown :=
| ErrorObject (message : jsstring)
| OtherValue (shown : jsstring).

Inductive Tool := googleMaps.

(** The argument of [ai.models.generateContent]. *)
Record GenerateContentParameters := {
  model : jsstring;
  contents : jsstring;
  tools : list Tool;
  retrieval_latLng : LatLng
}.

(** The remote service: what one call answers, a response or a throw. *)
Definition Api : Type :=
  GenerateContentParameters -> GenerateContentResponse + JsThrown.

(** What a run leaves behind: the calls issued to the API, and the lines
    written with [console.error] (latest last). *)
Record Effects := {
  requests : list GenerateContentParameters;
  console : list (jsstring * JsThrown)
}.

Definition noEffects : Effects := {| requests := []; console := [] |}.

(** An asynchronous computation that returns or throws, and logs. *)
Definition Async (A : Type) : Type := Effects -> (A + JsThrown) * Effects.

Definition ret {A} (a : A) : Async A := fun w => (inl a, w).

Definition throw {A} (e : JsThrown) : Async A := fun w => (inr e, w).

Definition bind {A B} (c : Async A) (k : A -> Async B) : Async B :=
  fun w =>
    match c w with
    | (inl a, w') => k a w'
    | (inr e, w') => (inr e, w')
    end.

Definition try_catch {A} (c : Async A) (handler : JsThrown -> Async A) : Async A :=
  fun w =>
    match c w with
    | (inl a, w') => (inl a, w')
    | (inr e, w') => handler e w'
    end.

Notation "x <- c ;; k" := (bind c (fun x => k))
  (at level 61, c at next level, right associativity).
Notation "c ;;; k" := (bind c (fun _ => k))
  (at level 61, right associativity).

(** A step that returns or throws without any effect. *)
Definition liftResult {A} (r : A + JsThrown) : Async A := fun w => (r, w).

Definition console_error (label : jsstring) (e : JsThrown) : Async unit :=
  fun w => (inl tt, {| requests := requests w; console := console w ++ [(label, e)] |}).

(** [await ai.models.generateContent(params)]: the call is recorded, and
    the answer of the service is returned or thrown. *)
Definition generateContent (api : Api) (params : GenerateContentParameters)
  : Async GenerateContentResponse :=
  fun w =>
    (api params, {| requests := requests w ++ [params]; console := console w |}).

(** ** services/geminiService.ts *)

Definition push {A} (arr : list A) (x : A) : list A := arr ++ [x].

(** Lines 99-103: the loop over the review snippets of one source. *)
Definition pushSnippets (urls : list GroundingUrl) (snippets : list ReviewSnippet)
  : list GroundingUrl :=
  fold_left
    (fun urls snippet =>
       match snippet_uri snippet with
       | Some u => if Js.truthy u then push urls {| uri := u; title := None |} else urls
       | None => urls
       end)
    snippets urls.

(** Lines 97-105: the loop over the place answer sources of one chunk. *)
Definition pushSources (urls : list GroundingUrl) (sources : list PlaceAnswerSource)
  : list GroundingUrl :=
  fold_left
    (fun urls source =>
       match reviewSnippets source with
       | Some snippets => pushSnippets urls snippets
       | None => urls
       end)
    sources urls.

(** The [TypeError] of [for (const source of ...)] on a value that is
    not iterable (the wording is the engine's; V8's is used). *)
Definition notIterable : JsThrown :=
  ErrorObject (Js.lit "chunk.maps.placeAnswerSources is not iterable").

(** Lines 92-107: the body of the loop over the grounding chunks. The
    [for..of] of line 97 throws when the place answer sources are there but
    are not an array. *)
Definition pushChunk (urls : list GroundingUrl) (chunk : GroundingChunk)
  : list GroundingUrl + JsThrown :=
  match maps chunk with
  | Some m =>
      let urls :=
        match maps_uri m with
        | Some u =>
            if Js.truthy u then push urls {| uri := u; title := maps_title m |} else urls
        | None => urls
        end in
      match placeAnswerSources m with
      | Some (SourcesArray sources) => inl (pushSources urls sources)
      | Some (SourcesObject _ _) => inr notIterable
      | None => inl urls
      end
  | None => inl urls
  end.

(** Line 91: the loop over the chunks, left at the first throw. *)
Fixpoint pushChunks (urls : list GroundingUrl) (chunks : list GroundingChunk)
  : list GroundingUrl + JsThrown :=
  match chunks with
  | [] => inl urls
  | chunk :: rest =>
      match pushChunk urls chunk with
      | inl urls => pushChunks urls rest
      | inr e => inr e
      end
  end.

(** [response.candidates?.[0]?.groundingMetadata?.groundingChunks] *)
Definition responseChunks (response : GenerateContentResponse)
  : option (list GroundingChunk) :=
  match candidates response with
  | Some (c :: _) =>
      match groundingMetadata c with
      | Some md => groundingChunks md
      | None => None
      end
  | _ => None
  end.

(** Lines 87-109: the extraction of the links, which completes with the
    candidate links or throws. *)
Definition extractUrls (response : GenerateContentResponse)
  : list GroundingUrl + JsThrown :=
  match responseChunks response with
  | Some chunks => pushChunks [] chunks
  | None => inl []
  end.

(** The candidate links of a response: what the extraction has
    collected when it completes (there are none to speak of when it
    throws). *)
Definition candidateUrls (response : GenerateContentResponse) : list GroundingUrl :=
  match extractUrls response with
  | inl urls => urls
  | inr _ => []
  end.

Definition defaultQuery : jsstring :=
  Js.lit "List key points of interest, famous landmarks, popular restaurants, and other notable locations in this area. Include details like address and a brief description for each. Provide comprehensive details.".

(** Lines 17-19: [query.trim() || default]. *)
Definition effectiveQuery (query : jsstring) : jsstring :=
  if Js.truthy (Js.trim query) then Js.trim query else defaultQuery.

Definition failedToFetch : JsThrown :=
  ErrorObject (Js.lit "Failed to fetch information. Please check your network and try again.").

(** The [TypeError] of [response.text.trim()] when [text] is [undefined]
    (the wording is the engine's; V8's is used). *)
Definition trimOfUndefined : JsThrown :=
  ErrorObject (Js.lit "Cannot read properties of undefined (reading 'trim')").

Definition requestFor (targetLatLng : LatLng) (query : jsstring)
  : GenerateContentParameters :=
  {| model := Js.lit "gemini-2.5-flash";
     contents := effectiveQuery query;
     tools := [googleMaps];
     retrieval_latLng :=
       {| latitude := latitude targetLatLng; longitude := longitude targetLatLng |} |}.

(** Lines 82-112: what the service makes of a response. *)
Definition processResponse (response : GenerateContentResponse)
  : Async MapsGroundingResult :=
  summary <- match text response with
             | Some t => ret (Js.trim t)
             | None => throw trimOfUndefined
             end ;;
  let places : list Place := [] in
  urls <- liftResult (extractUrls response) ;;
  ret {| summary := summary; places := places; urls := uniqueUrls urls |}.

Definition errorLabel : jsstring := Js.lit "Error fetching place info from Gemini:".

(** The client is taken to be constructed without failure (line 14 is
    outside the [try]). *)
Definition getPlaceInfo (api : Api) (targetLatLng : LatLng) (query : jsstring)
  : Async MapsGroundingResult :=
  try_catch
    (response <- generateContent api (requestFor targetLatLng query) ;;
     processResponse response)
    (fun error =>
       console_error errorLabel error ;;;
       throw failedToFetch).

(** The call as it leaves: the request is recorded. *)
Definition issue (params : GenerateContentParameters) (w : Effects) : Effects :=
  {| requests := requests w ++ [params]; console := console w |}.

(** [getPlaceInfo] from the [await] on: the answer of the API is returned
    or thrown inside the [try]. *)
Definition settlePlaceInfo (answer : GenerateContentResponse + JsThrown)
  : Async MapsGroundingResult :=
  try_catch
    (response <- liftResult answer ;;
     processResponse response)
    (fun error =>
       console_error errorLabel error ;;;
       throw failedToFetch).

(** ** App.tsx: the UI controller *)

Inductive SearchContext := kottayam | currentLocation.

(** The state of the component (the [useState] cells that change). *)
Record AppState := {
  userLocation : option LatLng;
  actualUserLocationDetermined : bool;
  searchContext : SearchContext;
  prompt : jsstring;
  filterCategory : jsstring;
  generalSummary : option jsstring;
  responseUrls : list GroundingUrl;
  loading : bool;
  error : option jsstring
}.

Definition setError (e : option jsstring) (s : AppState) : AppState :=
  {| userLocation := userLocation s;
     actualUserLocationDetermined := actualUserLocationDetermined s;
     searchContext := searchContext s;
     prompt := prompt s;
     filterCategory := filterCategory s;
     generalSummary := generalSummary s;
     responseUrls := responseUrls s;
     loading := loading s;
     error := e |}.

Definition setLoading (b : bool) (s : AppState) : AppState :=
  {| userLocation := userLocation s;
     actualUserLocationDetermined := actualUserLocationDetermined s;
     searchContext := searchContext s;
     prompt := prompt s;
     filterCategory := filterCategory s;
     generalSummary := generalSummary s;
     responseUrls := responseUrls s;
     loading := b;
     error := error s |}.

Definition setGeneralSummary (t : option jsstring) (s : AppState) : AppState :=
  {| userLocation := userLocation s;
     actualUserLocationDetermined := actualUserLocationDetermined s;
     searchContext := searchContext s;
     prompt := prompt s;
     filterCategory := filterCategory s;
     generalSummary := t;
     responseUrls := responseUrls s;
     loading := loading s;
     error := error s |}.

Definition setResponseUrls (l : list GroundingUrl) (s : AppState) : AppState :=
  {| userLocation := userLocation s;
     actualUserLocationDetermined := actualUserLocationDetermined s;
     searchContext := searchContext s;
     prompt := prompt s;
     filterCategory := filterCategory s;
     generalSummary := generalSummary s;
     responseUrls := l;
     loading := loading s;
     error := error s |}.

Definition defaultKottayamCoords : LatLng :=
  {| latitude := 9.5916%float; longitude := 76.5050%float |}.

(** [filterOptions], as (value, label). *)
Definition filterOptions : list (jsstring * jsstring) :=
  [ (Js.lit "all", Js.lit "All Categories");
    (Js.lit "companies_shops", Js.lit "Companies & Shops");
    (Js.lit "restaurants", Js.lit "Restaurants");
    (Js.lit "attractions", Js.lit "Attractions & Landmarks");
    (Js.lit "hotels", Js.lit "Hotels & Accommodations");
    (Js.lit "services", Js.lit "Services (e.g., banks, hospitals)") ].

Definition newline : jsstring := [10%N].

Definition quoted (s : jsstring) : jsstring := Js.dquote :: s ++ [Js.dquote].

(** A template substitution of an optional string: [undefined] prints as
    the word. *)
Definition interpolate (o : option jsstring) : jsstring :=
  match o with Some s => s | None => Js.lit "undefined" end.

(** Lines 104-107: the opening of the prompt, a template literal over
    four source lines. *)
Definition queryPreamble : jsstring :=
  Js.lit "You are a helpful assistant providing local information. Provide a detailed overview of places based on the user's request."
  ++ newline ++
  Js.lit "    For each place, include its name, comprehensive address, a detailed description, and its category (e.g., Restaurant, Shop, Landmark). If available, also include a website."
  ++ newline ++
  Js.lit "    Always prioritize comprehensive details for each listed place."
  ++ newline ++
  Js.lit "    ".

Definition genericClause : jsstring :=
  Js.lit " Include various types of places such as companies, shops, restaurants, attractions, and services.".

(** Lines 104-121: the prompt composed from the form. *)
Definition composeQuery (searchContext : SearchContext)
    (filterCategory prompt : jsstring) : jsstring :=
  let effectiveQuery := queryPreamble in
  let currentAreaName :=
    match searchContext with
    | kottayam => Js.lit "Kottayam city"
    | currentLocation => Js.lit "this area near my current location"
    end in
  let filterLabel :=
    option_map snd (find (fun opt => Js.eqb (fst opt) filterCategory) filterOptions) in
  let effectiveQuery :=
    if Js.truthy (Js.trim prompt)
    then effectiveQuery ++ Js.lit "The user is looking for: "
                        ++ quoted (Js.trim prompt) ++ Js.lit "."
    else effectiveQuery in
  let effectiveQuery :=
    if negb (Js.eqb filterCategory (Js.lit "all"))
    then effectiveQuery ++ Js.lit " Specifically focus on results in the "
                        ++ quoted (interpolate (option_map Js.toLowerCase filterLabel))
                        ++ Js.lit " category."
    else effectiveQuery ++ genericClause in
  effectiveQuery ++ Js.lit " Provide details for places in " ++ currentAreaName ++ Js.lit ".".

Definition locationRefusal : jsstring :=
  Js.lit "Your current location could not be determined. Please select 'Kottayam City' or enable geolocation.".

(** Lines 72-86: the target of the search, or the refusal. *)
Inductive Target :=
| Resolved (targetCoords : option LatLng) (locationDescription : jsstring)
| Refused (message : jsstring).

Definition resolveTarget (s : AppState) : Target :=
  match searchContext s with
  | kottayam => Resolved (Some defaultKottayamCoords) (Js.lit "Kottayam city")
  | currentLocation =>
      match actualUserLocationDetermined s, userLocation s with
      | true, Some loc => Resolved (Some loc) (Js.lit "your current location")
      | _, _ => Refused locationRefusal
      end
  end.

(** Lines 126-135: the outcome of the call stored in the state. *)
Definition storeOutcome (locationDescription : jsstring)
    (outcome : MapsGroundingResult + JsThrown) (s : AppState) : AppState :=
  match outcome with
  | inl result =>
      setResponseUrls (urls result) (setGeneralSummary (Some (summary result)) s)
  | inr (ErrorObject message) =>
      setError (Some (Js.lit "Error fetching data for " ++ locationDescription
                        ++ Js.lit ": " ++ message)) s
  | inr (OtherValue _) =>
      setError (Some (Js.lit "An unexpected error occurred while fetching data for "
                        ++ locationDescription ++ Js.lit ".")) s
  end.

Definition logOutcome (outcome : MapsGroundingResult + JsThrown) (w : Effects) : Effects :=
  match outcome with
  | inl _ => w
  | inr err => snd (console_error (Js.lit "API call error:") err w)
  end.

(** [handleSearch], run from the click to the end with no other event
    between the click and the answer of the API: the state the handler is
    triggered in is the state its closure reads, and the setters apply in
    program order. The refusals return before the [await], so for them
    this is the whole story; a run in which a callback of the platform
    comes between the click and the answer is a run of [step] below, with
    [clickSearch] and [apiAnswers] as the two halves of the handler. *)
Definition handleSearch (api : Api) (s : AppState) (w : Effects)
  : AppState * Effects :=
  match resolveTarget s with
  | Refused message => (setError (Some message) s, w)
  | Resolved None _ =>
      (setError (Some (Js.lit "Unable to determine search location. Please try again.")) s, w)
  | Resolved (Some targetCoords) locationDescription =>
      let started :=
        setResponseUrls [] (setGeneralSummary None (setError None (setLoading true s))) in
      let effectiveQuery :=
        composeQuery (searchContext s) (filterCategory s) (prompt s) in
      let (outcome, w) := getPlaceInfo api targetCoords effectiveQuery w in
      (setLoading false (storeOutcome locationDescription outcome started),
       logOutcome outcome w)
  end.

(** ** The specification's wording of the deduplication

    "Keeping first-seen order and first-seen title for each URI": the
    first item of every URI is kept, the later ones are dropped. *)
Fixpoint dedupFirstSeen (urls : list GroundingUrl) : list GroundingUrl :=
  match urls with
  | [] => []
  | item :: rest =>
      item :: filter (fun other => negb (Js.eqb (uri item) (uri other)))
                     (dedupFirstSeen rest)
  end.

(** The distinct strings of a list, in the order of their first
    occurrence. *)
Fixpoint firstSeen (ks : list jsstring) : list jsstring :=
  match ks with
  | [] => []
  | k :: rest => k :: filter (fun k' => negb (Js.eqb k k')) (firstSeen rest)
  end.

(** The last item of a list of links that has the given URI. *)
Definition lastWith (u : jsstring) (urls : list GroundingUrl) : option GroundingUrl :=
  find (fun item => Js.eqb u (uri item)) (rev urls).

(** The first item of a list of links that has the given URI. *)
Definition firstWith (u : jsstring) (urls : list GroundingUrl) : option GroundingUrl :=
  find (fun item => Js.eqb u (uri item)) urls.

(** ** What a chunk is expected to contribute

    A link without a title, as a review snippet gives it. *)
Definition untitled (u : jsstring) : GroundingUrl := {| uri := u; title := None |}.

(** The URIs of a list of review snippets that are present (neither
    [undefined] nor empty), in order. *)
Definition snippetUris (snippets : list ReviewSnippet) : list jsstring :=
  flat_map
    (fun snippet =>
       match snippet_uri snippet with
       | Some u => if Js.truthy u then [u] else []
       | None => []
       end)
    snippets.

(** The URIs nested under the place answer sources of a "maps"
    annotation, source after source. *)
Definition nestedUris (m : GroundingChunkMaps) : list jsstring :=
  match placeAnswerSources m with
  | Some (SourcesArray sources) =>
      flat_map
        (fun source =>
           match reviewSnippets source with
           | Some snippets => snippetUris snippets
           | None => []
           end)
        sources
  | _ => []
  end.

(** The URIs of the review snippets held by the place answer sources of
    a "maps" annotation, whichever of the two shapes the sources have. *)
Definition nestedSnippetUris (m : GroundingChunkMaps) : list jsstring :=
  match placeAnswerSources m with
  | Some (SourcesArray _) => nestedUris m
  | Some (SourcesObject _ (Some snippets)) => snippetUris snippets
  | _ => []
  end.

(** Whether line 97 can iterate the place answer sources of a chunk (or
    has none to iterate). *)
Definition iterableSources (chunk : GroundingChunk) : bool :=
  match maps chunk with
  | Some m =>
      match placeAnswerSources m with
      | Some (SourcesObject _ _) => false
      | _ => true
      end
  | None => true
  end.

(** The direct link of a "maps" annotation, when its URI is present. *)
Definition directLink (m : GroundingChunkMaps) : list GroundingUrl :=
  match maps_uri m with
  | Some u => if Js.truthy u then [{| uri := u; title := maps_title m |}] else []
  | None => []
  end.

Definition chunkLinks (chunk : GroundingChunk) : list GroundingUrl :=
  match maps chunk with
  | Some m => directLink m ++ List.map untitled (nestedUris m)
  | None => []
  end.

(** ** The clauses of the composed prompt, one per statement of lines
    112-121 *)

Definition userClause (prompt : jsstring) : jsstring :=
  if Js.truthy (Js.trim prompt)
  then Js.lit "The user is looking for: " ++ quoted (Js.trim prompt) ++ Js.lit "."
  else [].

Definition categoryClause (filterCategory : jsstring) : jsstring :=
  if negb (Js.eqb filterCategory (Js.lit "all"))
  then Js.lit " Specifically focus on results in the "
       ++ quoted (interpolate
                    (option_map Js.toLowerCase
                       (option_map snd
                          (find (fun opt => Js.eqb (fst opt) filterCategory) filterOptions))))
       ++ Js.lit " category."
  else genericClause.

Definition areaClause (searchContext : SearchContext) : jsstring :=
  Js.lit " Provide details for places in "
  ++ match searchContext with
     | kottayam => Js.lit "Kottayam city"
     | currentLocation => Js.lit "this area near my current location"
     end
  ++ Js.lit ".".

(** The words by which the specification names the generic clause. *)
Definition variousPhrase : jsstring := Js.lit "various types of places".

(** ** Sample inputs *)

(** A service that answers every call with the given response. *)
Definition respond (response : GenerateContentResponse) : Api :=
  fun _ => inl response.

(** A service whose every call throws the given value. *)
Definition failWith (e : JsThrown) : Api := fun _ => inr e.

Definition responseWith (body : option jsstring) (chunks : option (list GroundingChunk))
  : GenerateContentResponse :=
  {| text := body;
     candidates := Some [ {| groundingMetadata := Some {| groundingChunks := chunks |} |} ] |}.

Definition cafeUri : jsstring := Js.lit "https://maps.example/cafe".
Definition reviewUri : jsstring := Js.lit "https://maps.example/review/1".

(** A place with a title, and a review snippet that points to the same
    URI as the place. *)
Definition reviewedCafe : GroundingChunk :=
  {| maps := Some {| maps_uri := Some cafeUri;
                     maps_title := Some (Js.lit "Cafe A");
                     placeAnswerSources :=
                       Some (SourcesArray
                               [ {| reviewSnippets := Some [ {| snippet_uri := Some cafeUri |} ] |} ]) |} |}.

(** A "maps" annotation without a URI of its own, with review snippets. *)
Definition reviewsOnlyMaps : GroundingChunkMaps :=
  {| maps_uri := None;
     maps_title := Some (Js.lit "Cafe B");
     placeAnswerSources :=
       Some (SourcesArray
               [ {| reviewSnippets := Some [ {| snippet_uri := Some reviewUri |};
                                             {| snippet_uri := None |} ] |};
                 {| reviewSnippets := None |};
                 {| reviewSnippets := Some [ {| snippet_uri := Some cafeUri |} ] |} ]) |}.

(** A "maps" annotation without a URI of its own whose place answer
    sources have the shape that the client library declares: one object
    that holds the review snippets. *)
Definition declaredShapeMaps : GroundingChunkMaps :=
  {| maps_uri := None;
     maps_title := Some (Js.lit "Cafe B");
     placeAnswerSources :=
       Some (SourcesObject None (Some [ {| snippet_uri := Some reviewUri |} ])) |}.

Definition declaredShape : GroundingChunk := {| maps := Some declaredShapeMaps |}.

Definition reviewsOnly : GroundingChunk := {| maps := Some reviewsOnlyMaps |}.

(** The state after a failed geolocation and an earlier search of the
    city: results on display, "current location" selected. *)
Definition staleState : AppState :=
  {| userLocation := Some defaultKottayamCoords;
     actualUserLocationDetermined := false;
     searchContext := currentLocation;
     prompt := Js.lit "cafes";
     filterCategory := Js.lit "restaurants";
     generalSummary := Some (Js.lit "Two cafes.");
     responseUrls := [untitled cafeUri];
     loading := false;
     error := None |}.

(** ** App.tsx: the other setters, the geolocation callbacks, the view *)

Definition setUserLocation (l : option LatLng) (s : AppState) : AppState :=
  {| userLocation := l;
     actualUserLocationDetermined := actualUserLocationDetermined s;
     searchContext := searchContext s;
     prompt := prompt s;
     filterCategory := filterCategory s;
     generalSummary := generalSummary s;
     responseUrls := responseUrls s;
     loading := loading s;
     error := error s |}.

Definition setActualUserLocationDetermined (b : bool) (s : AppState) : AppState :=
  {| userLocation := userLocation s;
     actualUserLocationDetermined := b;
     searchContext := searchContext s;
     prompt := prompt s;
     filterCategory := filterCategory s;
     generalSummary := generalSummary s;
     responseUrls := responseUrls s;
     loading := loading s;
     error := error s |}.

Definition setSearchContext (c : SearchContext) (s : AppState) : AppState :=
  {| userLocation := userLocation s;
     actualUserLocationDetermined := actualUserLocationDetermined s;
     searchContext := c;
     prompt := prompt s;
     filterCategory := filterCategory s;
     generalSummary := generalSummary s;
     responseUrls := responseUrls s;
     loading := loading s;
     error := error s |}.

Definition setPrompt (t : jsstring) (s : AppState) : AppState :=
  {| userLocation := userLocation s;
     actualUserLocationDetermined := actualUserLocationDetermined s;
     searchContext := searchContext s;
     prompt := t;
     filterCategory := filterCategory s;
     generalSummary := generalSummary s;
     responseUrls := responseUrls s;
     loading := loading s;
     error := error s |}.

Definition setFilterCategory (v : jsstring) (s : AppState) : AppState :=
  {| userLocation := userLocation s;
     actualUserLocationDetermined := actualUserLocationDetermined s;
     searchContext := searchContext s;
     prompt := prompt s;
     filterCategory := v;
     generalSummary := generalSummary s;
     responseUrls := responseUrls s;
     loading := loading s;
     error := error s |}.

(** Lines 8-19: the initial values of the [useState] cells. *)
Definition initialState : AppState :=
  {| userLocation := None;
     actualUserLocationDetermined := false;
     searchContext := kottayam;
     prompt := [];
     filterCategory := Js.lit "all";
     generalSummary := None;
     responseUrls := [];
     loading := false;
     error := None |}.

(** The error object of the geolocation API: its numeric code and its
    message. *)
Record GeolocationPositionError := {
  geo_code : N;
  geo_message : jsstring
}.

Definition PERMISSION_DENIED : N := 1.
Definition POSITION_UNAVAILABLE : N := 2.
Definition TIMEOUT : N := 3.

(** A template substitution of an integer: its decimal digits. *)
Definition decimal (n : N) : jsstring := Js.lit (NilZero.string_of_uint (N.to_uint n)).

(** Lines 46-53: the opening of the message, by the code of the error. *)
Definition geoErrorMessage (geoError : GeolocationPositionError) : jsstring :=
  let errorMessage := Js.lit "Geolocation failed (Code: " ++ decimal (geo_code geoError) ++ Js.lit "):" in
  if N.eqb (geo_code geoError) PERMISSION_DENIED then Js.lit "Permission denied."
  else if N.eqb (geo_code geoError) POSITION_UNAVAILABLE then Js.lit "Position unavailable."
  else if N.eqb (geo_code geoError) TIMEOUT then Js.lit "Request timed out."
  else errorMessage.

(** Line 54: what follows the opening, whatever the code. *)
Definition geoGuidance : jsstring :=
  Js.lit " You can still search for " ++ quoted (Js.lit "Kottayam City")
  ++ Js.lit ". To search " ++ quoted (Js.lit "Near My Current Location")
  ++ Js.lit ", please grant geolocation permission or ensure location services are enabled.".

Definition geoUnsupportedMessage : jsstring :=
  Js.lit "Geolocation is not supported by your browser. You can only search for 'Kottayam City'.".

(** Lines 35-43: the success callback of [getCurrentPosition]. *)
Definition onGeoSuccess (position : LatLng) (s : AppState) : AppState :=
  let coords := {| latitude := latitude position; longitude := longitude position |} in
  setError None (setActualUserLocationDetermined true (setUserLocation (Some coords) s)).

(** Lines 44-58: the error callback; the console line records the label
    and the message of the error. *)
Definition onGeoError (geoError : GeolocationPositionError) (s : AppState) (w : Effects)
  : AppState * Effects :=
  let w := snd (console_error (Js.lit "Geolocation error:")
                  (OtherValue (geo_message geoError)) w) in
  let finalErrorMessage := geoErrorMessage geoError ++ geoGuidance in
  (setActualUserLocationDetermined false
     (setUserLocation (Some defaultKottayamCoords)
        (setError (Some finalErrorMessage) s)),
   w).

(** Lines 61-67: the platform has no geolocation at all. *)
Definition onGeoUnsupported (s : AppState) : AppState :=
  setSearchContext kottayam
    (setActualUserLocationDetermined false
       (setUserLocation (Some defaultKottayamCoords)
          (setError (Some geoUnsupportedMessage) s))).

(** Line 141. *)
Definition isCurrentLocationSearchDisabled (s : AppState) : bool :=
  negb (actualUserLocationDetermined s).

Definition isCurrentLocation (c : SearchContext) : bool :=
  match c with currentLocation => true | kottayam => false end.

(** Line 362: the [disabled] attribute of the search button. *)
Definition searchButtonDisabled (s : AppState) : bool :=
  loading s || (isCurrentLocation (searchContext s) && negb (actualUserLocationDetermined s)).

(** Line 202: the [disabled] attribute of the "current location" radio. *)
Definition currentLocationRadioDisabled (s : AppState) : bool :=
  loading s || isCurrentLocationSearchDisabled s.

(** Lines 190, 229 and 247: the other controls are disabled while a
    search is pending. *)
Definition inputsDisabled (s : AppState) : bool := loading s.

(** Line 167: the banner is rendered when [error] is truthy. *)
Definition showsError (s : AppState) : bool := Js.truthy_opt (error s).

(** Line 261: [!loading && generalSummary]. *)
Definition showsSummary (s : AppState) : bool :=
  negb (loading s) && Js.truthy_opt (generalSummary s).

(** Line 330: [!loading && responseUrls.length > 0]. *)
Definition showsLinks (s : AppState) : bool :=
  negb (loading s) && match responseUrls s with [] => false | _ :: _ => true end.

(** Line 347: [url.title || url.uri]. *)
Definition linkText (url : GroundingUrl) : jsstring :=
  if Js.truthy_opt (title url)
  then match title url with Some t => t | None => [] end
  else uri url.

(** Line 132, with the message of the error that the service throws. *)
Definition fetchFailureMessage (locationDescription : jsstring) : jsstring :=
  Js.lit "Error fetching data for " ++ locationDescription ++ Js.lit ": "
  ++ Js.lit "Failed to fetch information. Please check your network and try again.".

(** ** The handler in two steps, and the controller as a machine

    Lines 93-99: the state while the call is pending. *)
Definition pendingState (s : AppState) : AppState :=
  setResponseUrls [] (setGeneralSummary None (setError None (setLoading true s))).

(** Lines 124-138: the state once the call has settled. *)
Definition settle (locationDescription : jsstring)
    (outcome : MapsGroundingResult + JsThrown) (s : AppState) : AppState :=
  setLoading false (storeOutcome locationDescription outcome s).

(** The call that the handler awaits: the target, the description of the
    location held by the closure, and the prompt. The request itself has
    left at the click. *)
Record PendingCall := {
  call_coords : LatLng;
  call_description : jsstring;
  call_query : jsstring
}.

Record Config := {
  ui : AppState;
  inFlight : option PendingCall;
  world : Effects
}.

Definition initialConfig : Config :=
  {| ui := initialState; inFlight := None; world := noEffects |}.

(** What can happen to the component: the callbacks of the platform, the
    controls of the form, the click on the search button, and the answer
    of the API to the pending call. *)
Inductive Event :=
| GeoSuccess (position : LatLng)
| GeoError (geoError : GeolocationPositionError)
| GeoUnsupported
| SelectContext (c : SearchContext)
| SelectFilter (v : jsstring)
| TypePrompt (t : jsstring)
| ClickSearch
| ApiAnswers (answer : GenerateContentResponse + JsThrown).

(** The first half of [handleSearch], up to the [await]. *)
Definition clickSearch (cfg : Config) : Config :=
  let s := ui cfg in
  match resolveTarget s with
  | Refused message =>
      {| ui := setError (Some message) s; inFlight := inFlight cfg; world := world cfg |}
  | Resolved None _ =>
      {| ui := setError (Some (Js.lit "Unable to determine search location. Please try again.")) s;
         inFlight := inFlight cfg; world := world cfg |}
  | Resolved (Some targetCoords) locationDescription =>
      {| ui := pendingState s;
         inFlight := Some {| call_coords := targetCoords;
                             call_description := locationDescription;
                             call_query := composeQuery (searchContext s) (filterCategory s)
                                             (prompt s) |};
         world := issue (requestFor targetCoords
                           (composeQuery (searchContext s) (filterCategory s) (prompt s)))
                    (world cfg) |}
  end.

(** The second half: the service goes on from the answer, and the handler
    stores the outcome in the state of that moment. *)
Definition apiAnswers (answer : GenerateContentResponse + JsThrown) (call : PendingCall)
    (cfg : Config) : Config :=
  let (outcome, w) := settlePlaceInfo answer (world cfg) in
  {| ui := settle (call_description call) outcome (ui cfg);
     inFlight := None;
     world := logOutcome outcome w |}.

(** One event; [None] when the control is disabled or no call is
    pending. The callbacks of the platform are allowed at any moment. *)
Definition step (e : Event) (cfg : Config) : option Config :=
  let s := ui cfg in
  let with_ui s' := Some {| ui := s'; inFlight := inFlight cfg; world := world cfg |} in
  match e with
  | GeoSuccess position => with_ui (onGeoSuccess position s)
  | GeoError geoError =>
      let (s', w') := onGeoError geoError s (world cfg) in
      Some {| ui := s'; inFlight := inFlight cfg; world := w' |}
  | GeoUnsupported => with_ui (onGeoUnsupported s)
  | SelectContext kottayam =>
      if inputsDisabled s then None else with_ui (setSearchContext kottayam s)
  | SelectContext currentLocation =>
      if currentLocationRadioDisabled s then None
      else with_ui (setSearchContext currentLocation s)
  | SelectFilter v =>
      if inputsDisabled s then None
      else if existsb (fun opt => Js.eqb (fst opt) v) filterOptions
           then with_ui (setFilterCategory v s) else None
  | TypePrompt t =>
      if inputsDisabled s then None else with_ui (setPrompt t s)
  | ClickSearch =>
      if searchButtonDisabled s then None else Some (clickSearch cfg)
  | ApiAnswers answer =>
      match inFlight cfg with
      | Some call => Some (apiAnswers answer call cfg)
      | None => None
      end
  end.

(** A run of events from a configuration. *)
Fixpoint run (events : list Event) (cfg : Config) : option Config :=
  match events with
  | [] => Some cfg
  | e :: rest =>
      match step e cfg with
      | Some cfg' => run rest cfg'
      | None => None
      end
  end.

Definition Reachable (cfg : Config) : Prop :=
  exists events, run events initialConfig = Some cfg.

(** A sample run: the position arrives, the user selects "current
    location", types, clicks, and the API answers. *)
Definition sampleRun : list Event :=
  [ GeoSuccess {| latitude := 9.9312%float; longitude := 76.2673%float |};
    SelectContext currentLocation;
    SelectFilter (Js.lit "restaurants");
    TypePrompt (Js.lit " cafes ");
    ClickSearch;
    ApiAnswers (inl (responseWith (Some (Js.lit " Two cafes. ")) (Some [reviewedCafe; reviewsOnly]))) ].

(** What every event keeps: a position marked as determined is there, the
    loading flag is up exactly while a call is pending, and the filter is
    one of the options. *)
Definition Invariant (cfg : Config) : Prop :=
  (actualUserLocationDetermined (ui cfg) = true -> userLocation (ui cfg) <> None)
  /\ (loading (ui cfg) = true <-> inFlight cfg <> None)
  /\ (exists label, In (filterCategory (ui cfg), label) filterOptions).

(** The configuration after a run from the initial one (the initial one
    when the run is not possible). *)
Definition configAfter (events : list Event) : Config :=
  match run events initialConfig with
  | Some cfg => cfg
  | None => initialConfig
  end.

(** The sample run up to the click: the call is pending. *)
Definition samplePending : list Event := firstn 5 sampleRun.

(** The same, with a geolocation error that arrives while the call is
    pending. *)
Definition sampleInterrupted : list Event :=
  samplePending ++ [ GeoError {| geo_code := TIMEOUT; geo_message := Js.lit "Timeout expired" |} ].

Definition sampleCall : PendingCall :=
  {| call_coords := {| latitude := 9.9312%float; longitude := 76.2673%float |};
     call_description := Js.lit "your current location";
     call_query := composeQuery currentLocation (Js.lit "restaurants") (Js.lit " cafes ") |}.

(** * Properties *)

(** ** Strings *)

Lemma eqb_eq (s t : jsstring) : Js.eqb s t = true <-> s = t.
Proof.
  revert t; induction s as [|c s IH]; intros [|d t]; simpl;
    try (split; [discriminate | intros H; discriminate H]); try tauto.
  rewrite andb_true_iff, N.eqb_eq, IH.
  split; [intros [-> ->]; reflexivity | intros H; inversion H; auto].
Qed.

Lemma eqb_refl (s : jsstring) : Js.eqb s s = true.
Proof. apply eqb_eq; reflexivity. Qed.

Lemma eqb_neq (s t : jsstring) : Js.eqb s t = false <-> s <> t.
Proof.
  rewrite <- eqb_eq. destruct (Js.eqb s t); split; intros H;
    try discriminate; try reflexivity; try congruence.
Qed.

Lemma eqb_sym (s t : jsstring) : Js.eqb s t = Js.eqb t s.
Proof.
  destruct (Js.eqb s t) eqn:E.
  - apply eqb_eq in E; subst; symmetry; apply eqb_refl.
  - symmetry; apply eqb_neq; apply eqb_neq in E; congruence.
Qed.

Lemma startsWith_prefix (s t : jsstring) :
  Js.startsWith s t = true <-> exists post, s = t ++ post.
Proof.
  revert s; induction t as [|d t IH]; intros s; simpl.
  - split; [intros _; exists s; reflexivity | reflexivity].
  - destruct s as [|c s].
    + split; [discriminate | intros [post H]; discriminate H].
    + rewrite andb_true_iff, N.eqb_eq, IH. split.
      * intros [-> [post ->]]; exists post; reflexivity.
      * intros [post H]; inversion H; subst; split; [reflexivity | exists post; reflexivity].
Qed.

Lemma includes_Contains (s t : jsstring) :
  Js.includes s t = true <-> Js.Contains s t.
Proof.
  unfold Js.Contains; induction s as [|c s IH].
  - simpl. rewrite orb_false_r, startsWith_prefix. split.
    + intros [post H]; exists [], post; exact H.
    + intros [pre [post H]]. destruct pre; simpl in H.
      * exists post; exact H.
      * discriminate H.
  - cbn [Js.includes]. rewrite orb_true_iff, startsWith_prefix, IH. split.
    + intros [[post H] | [pre [post H]]].
      * exists [], post; exact H.
      * exists (c :: pre), post; simpl; rewrite H; reflexivity.
    + intros [pre [post H]]. destruct pre as [|c' pre]; simpl in H.
      * left; exists post; exact H.
      * right; inversion H; subst. exists pre, post; reflexivity.
Qed.

Lemma not_includes (s t : jsstring) :
  Js.includes s t = false <-> ~ Js.Contains s t.
Proof.
  rewrite <- includes_Contains. destruct (Js.includes s t); split; intros H;
    try discriminate; try reflexivity; try congruence.
Qed.

Lemma Contains_middle (pre t post : jsstring) : Js.Contains (pre ++ t ++ post) t.
Proof. exists pre, post; reflexivity. Qed.

Lemma Contains_trans (s t u : jsstring) :
  Js.Contains s t -> Js.Contains t u -> Js.Contains s u.
Proof.
  intros [p1 [q1 ->]] [p2 [q2 ->]]. exists (p1 ++ p2), (q2 ++ q1).
  repeat rewrite <- app_assoc; reflexivity.
Qed.

(** An occurrence of [t] cannot straddle a code unit that [t] lacks. *)
Lemma Contains_split (a b t : jsstring) (c : N) :
  ~ In c t -> Js.Contains (a ++ c :: b) t -> Js.Contains a t \/ Js.Contains b t.
Proof.
  intros Hc [pre [post H]].
  revert pre H; induction a as [|x a IH]; intros pre H.
  - right. simpl in H. destruct pre as [|p pre]; simpl in H.
    + destruct t as [|d t]; [exists [], b; reflexivity |].
      simpl in H; inversion H; subst. exfalso; apply Hc; left; reflexivity.
    + inversion H; subst. exists pre, post; reflexivity.
  - destruct pre as [|p pre]; simpl in H.
    + (* the occurrence starts at the head of [x :: a] *)
      clear IH. left.
      assert (G : forall (t a0 : jsstring), ~ In c t ->
                 a0 ++ c :: b = t ++ post -> exists r, a0 = t ++ r).
      { clear. induction t as [|d t IHt]; intros a0 Hc H.
        - exists a0; reflexivity.
        - destruct a0 as [|y a0]; simpl in H; inversion H; subst.
          + exfalso; apply Hc; left; reflexivity.
          + destruct (IHt a0) as [r Hr]; [intros Hin; apply Hc; right; exact Hin | assumption |].
            exists r; rewrite Hr; reflexivity. }
      destruct (G t (x :: a) Hc H) as [r Hr].
      exists [], r; exact Hr.
    + inversion H; subst.
      destruct (IH pre H2) as [[p' [q' E]] | R].
      * left. exists (p :: p'), q'; simpl; rewrite E; reflexivity.
      * right; exact R.
Qed.

Lemma trimStart_spec (s : jsstring) :
  exists lead, s = lead ++ Js.trimStart s
               /\ forallb Js.isWhiteSpace lead = true
               /\ match Js.trimStart s with
                  | [] => True
                  | c :: _ => Js.isWhiteSpace c = false
                  end.
Proof.
  induction s as [|c s [lead [E [W H]]]]; simpl.
  - exists []; auto.
  - destruct (Js.isWhiteSpace c) eqn:Ec.
    + exists (c :: lead); simpl; rewrite Ec, W; repeat split; auto.
      f_equal; exact E.
    + exists []; simpl; auto.
Qed.

Lemma forallb_rev {A} (f : A -> bool) (l : list A) :
  forallb f (rev l) = forallb f l.
Proof.
  induction l as [|x l IH]; simpl; [reflexivity|].
  rewrite forallb_app, IH; simpl. rewrite andb_true_r, andb_comm; reflexivity.
Qed.

(** [trim] removes a run of white space at each end and nothing else, and
    what is left neither starts nor ends with white space. *)
Lemma trim_spec (s : jsstring) :
  exists lead trail,
    s = lead ++ Js.trim s ++ trail
    /\ forallb Js.isWhiteSpace lead = true
    /\ forallb Js.isWhiteSpace trail = true
    /\ (forall c rest, Js.trim s = c :: rest -> Js.isWhiteSpace c = false)
    /\ (forall c front, Js.trim s = front ++ [c] -> Js.isWhiteSpace c = false).
Proof.
  unfold Js.trim, Js.trimEnd.
  destruct (trimStart_spec s) as [lead [E [W H]]].
  destruct (trimStart_spec (rev (Js.trimStart s))) as [tl [E' [W' H']]].
  exists lead, (rev tl).
  assert (E2 : Js.trimStart s = rev (Js.trimStart (rev (Js.trimStart s))) ++ rev tl).
  { rewrite <- rev_app_distr, <- E', rev_involutive; reflexivity. }
  repeat split.
  - rewrite <- E2; exact E.
  - exact W.
  - rewrite forallb_rev; exact W'.
  - intros c rest Hc. rewrite Hc in E2.
    destruct (Js.trimStart s) as [|d u]; [discriminate E2|].
    simpl in E2; inversion E2; subst; exact H.
  - intros c front Hc.
    assert (R : Js.trimStart (rev (Js.trimStart s)) = c :: rev front).
    { rewrite <- (rev_involutive (Js.trimStart (rev (Js.trimStart s)))), Hc.
      rewrite rev_app_distr; reflexivity. }
    rewrite R in H'; exact H'.
Qed.

(** A string that neither starts nor ends with white space is its own
    trim. *)
Lemma trim_fixed (c d : N) (mid : jsstring) :
  Js.isWhiteSpace c = false -> Js.isWhiteSpace d = false ->
  Js.trim (c :: mid ++ [d]) = c :: mid ++ [d].
Proof.
  intros Hc Hd. unfold Js.trim, Js.trimEnd. simpl Js.trimStart at 2. rewrite Hc.
  change (c :: mid ++ [d]) with ((c :: mid) ++ [d]).
  rewrite rev_app_distr. simpl rev at 2. simpl app at 1.
  simpl Js.trimStart. rewrite Hd.
  change (d :: rev mid ++ [c]) with ([d] ++ rev (c :: mid)).
  rewrite rev_app_distr, rev_involutive; reflexivity.
Qed.

(** ** The insertion-ordered map *)

Section MapFacts.
Variable V : Type.
Implicit Types (m : JsMap.t V) (k : jsstring) (v : V).

Lemma keys_set_present k v m :
  In k (JsMap.keys m) -> JsMap.keys (JsMap.set k v m) = JsMap.keys m.
Proof.
  induction m as [|[k' v'] m IH]; simpl; [tauto|].
  intros H. destruct (Js.eqb k k') eqn:E; simpl; [reflexivity|].
  f_equal. apply IH. destruct H as [H|H]; [|exact H].
  apply eqb_neq in E; congruence.
Qed.

Lemma keys_set_fresh k v m :
  ~ In k (JsMap.keys m) -> JsMap.keys (JsMap.set k v m) = JsMap.keys m ++ [k].
Proof.
  induction m as [|[k' v'] m IH]; simpl; [reflexivity|].
  intros H. destruct (Js.eqb k k') eqn:E; simpl.
  - apply eqb_eq in E; subst; tauto.
  - f_equal; apply IH; tauto.
Qed.

Lemma get_set k0 k v m :
  JsMap.get k0 (JsMap.set k v m) = if Js.eqb k0 k then Some v else JsMap.get k0 m.
Proof.
  induction m as [|[k' v'] m IH]; simpl; [reflexivity|].
  destruct (Js.eqb k k') eqn:E; simpl.
  - apply eqb_eq in E; subst. destruct (Js.eqb k0 k'); reflexivity.
  - rewrite IH. destruct (Js.eqb k0 k') eqn:E0; [|reflexivity].
    apply eqb_eq in E0; subst. rewrite eqb_sym, E; reflexivity.
Qed.

Lemma from_entries_snoc (es : list (jsstring * V)) (e : jsstring * V) :
  JsMap.from_entries (es ++ [e]) = JsMap.set (fst e) (snd e) (JsMap.from_entries es).
Proof. unfold JsMap.from_entries; rewrite fold_left_app; reflexivity. Qed.

Lemma get_In k v m :
  NoDup (JsMap.keys m) -> In (k, v) m -> JsMap.get k m = Some v.
Proof.
  induction m as [|[k' v'] m IH]; simpl; [tauto|].
  intros ND [H|H].
  - inversion H; subst. rewrite eqb_refl; reflexivity.
  - inversion ND as [|? ? Hn ND']; subst.
    destruct (Js.eqb k k') eqn:E.
    + apply eqb_eq in E; subst. exfalso; apply Hn.
      change k' with (fst (k', v)). apply in_map; exact H.
    + apply IH; assumption.
Qed.

Lemma set_invariant (Q : jsstring -> V -> Prop) k v m :
  Q k v -> (forall e, In e m -> Q (fst e) (snd e)) ->
  forall e, In e (JsMap.set k v m) -> Q (fst e) (snd e).
Proof.
  intros Hkv. induction m as [|[k' v'] m IH]; simpl; intros Hm e He.
  - destruct He as [<-|[]]; exact Hkv.
  - destruct (Js.eqb k k') eqn:E; simpl in He.
    + destruct He as [<-|He]; simpl.
      * apply eqb_eq in E; subst; exact Hkv.
      * apply Hm; right; exact He.
    + destruct He as [<-|He].
      * apply (Hm (k', v')); left; reflexivity.
      * apply IH; [|exact He]. intros x Hx; apply Hm; right; exact Hx.
Qed.

Lemma from_entries_invariant (Q : jsstring -> V -> Prop) (es : list (jsstring * V)) :
  (forall e, In e es -> Q (fst e) (snd e)) ->
  forall e, In e (JsMap.from_entries es) -> Q (fst e) (snd e).
Proof.
  induction es as [|x es IH] using rev_ind; intros Hes e He.
  - destruct He.
  - rewrite from_entries_snoc in He. revert e He. apply set_invariant.
    + apply Hes, in_or_app; right; left; reflexivity.
    + apply IH. intros y Hy; apply Hes, in_or_app; left; exact Hy.
Qed.

End MapFacts.

(** ** First-seen order *)

Lemma In_firstSeen (k : jsstring) (ks : list jsstring) :
  In k (firstSeen ks) <-> In k ks.
Proof.
  induction ks as [|a ks IH]; simpl; [tauto|].
  rewrite filter_In, IH, negb_true_iff, eqb_neq.
  destruct (list_eq_dec N.eq_dec a k); intuition congruence.
Qed.

Lemma NoDup_filter {A} (f : A -> bool) (l : list A) :
  NoDup l -> NoDup (filter f l).
Proof.
  induction 1 as [|x l Hx ND IH]; simpl; [constructor|].
  destruct (f x); [constructor|]; auto.
  rewrite filter_In; tauto.
Qed.

Lemma NoDup_firstSeen (ks : list jsstring) : NoDup (firstSeen ks).
Proof.
  induction ks as [|a ks IH]; simpl; constructor.
  - rewrite filter_In, negb_true_iff, eqb_neq; intros [_ H]; apply H; reflexivity.
  - apply NoDup_filter; exact IH.
Qed.

Lemma firstSeen_snoc (ks : list jsstring) (k : jsstring) :
  (In k ks -> firstSeen (ks ++ [k]) = firstSeen ks)
  /\ (~ In k ks -> firstSeen (ks ++ [k]) = firstSeen ks ++ [k]).
Proof.
  induction ks as [|a ks [IH1 IH2]]; simpl.
  - split; [tauto | reflexivity].
  - destruct (list_eq_dec N.eq_dec a k) as [->|Hak].
    + split; [intros _ | tauto]. f_equal.
      destruct (in_dec (list_eq_dec N.eq_dec) k ks) as [Hin|Hin].
      * rewrite IH1 by exact Hin; reflexivity.
      * rewrite IH2 by exact Hin. rewrite filter_app; simpl.
        rewrite eqb_refl; simpl; apply app_nil_r.
    + split.
      * intros [H|H]; [congruence|]. rewrite IH1 by exact H; reflexivity.
      * intros H. rewrite IH2 by tauto. rewrite filter_app; simpl.
        apply eqb_neq in Hak; rewrite Hak; reflexivity.
Qed.

(** The keys of [new Map(entries)] are the distinct keys of the entries in
    the order of their first occurrence. *)
Lemma keys_from_entries {V} (es : list (jsstring * V)) :
  JsMap.keys (JsMap.from_entries es) = firstSeen (List.map fst es).
Proof.
  induction es as [|e es IH] using rev_ind; [reflexivity|].
  rewrite from_entries_snoc, map_app; simpl.
  destruct (firstSeen_snoc (List.map fst es) (fst e)) as [F1 F2].
  destruct (in_dec (list_eq_dec N.eq_dec) (fst e) (List.map fst es)) as [Hin|Hin].
  - rewrite keys_set_present, IH, F1; auto. rewrite IH, In_firstSeen; exact Hin.
  - rewrite keys_set_fresh, IH, F2; auto. rewrite IH, In_firstSeen; exact Hin.
Qed.

(** The value of a key in [new Map(entries)] is the one of its last
    entry. *)
Lemma get_from_entries {V} (es : list (jsstring * V)) (k : jsstring) :
  JsMap.get k (JsMap.from_entries es)
  = option_map snd (find (fun e => Js.eqb k (fst e)) (rev es)).
Proof.
  induction es as [|e es IH] using rev_ind; [reflexivity|].
  rewrite from_entries_snoc, get_set, rev_app_distr; simpl.
  destruct (Js.eqb k (fst e)); simpl; [reflexivity | exact IH].
Qed.

Lemma find_map {A B} (f : A -> B) (p : B -> bool) (l : list A) :
  find p (List.map f l) = option_map f (find (fun x => p (f x)) l).
Proof.
  induction l as [|x l IH]; simpl; [reflexivity|].
  destruct (p (f x)); [reflexivity | exact IH].
Qed.

Lemma urlEntries_keyed (urls : list GroundingUrl) (e : jsstring * GroundingUrl) :
  In e (JsMap.from_entries (urlEntries urls)) -> uri (snd e) = fst e.
Proof.
  apply (from_entries_invariant (fun k v => uri v = k)).
  intros x Hx. apply in_map_iff in Hx. destruct Hx as [i [<- _]]; reflexivity.
Qed.

Lemma uniqueUrls_keys (urls : list GroundingUrl) :
  List.map uri (uniqueUrls urls) = firstSeen (List.map uri urls).
Proof.
  unfold uniqueUrls.
  replace (List.map uri urls) with (List.map fst (urlEntries urls))
    by (unfold urlEntries; rewrite map_map; reflexivity).
  rewrite <- keys_from_entries.
  unfold JsMap.values, JsMap.keys. rewrite map_map.
  apply map_ext_in. intros e He. apply urlEntries_keyed with (urls := urls); exact He.
Qed.

Lemma uniqueUrls_last (urls : list GroundingUrl) (item : GroundingUrl) :
  In item (uniqueUrls urls) -> lastWith (uri item) urls = Some item.
Proof.
  unfold uniqueUrls. intros Hin.
  apply in_map_iff in Hin. destruct Hin as [[k v] [Hv Hin]]; simpl in Hv; subst v.
  assert (Hk := urlEntries_keyed urls _ Hin); simpl in Hk; subst k.
  assert (G : JsMap.get (uri item) (JsMap.from_entries (urlEntries urls)) = Some item).
  { apply get_In; [|exact Hin]. rewrite keys_from_entries; apply NoDup_firstSeen. }
  rewrite get_from_entries in G. unfold urlEntries in G.
  rewrite <- map_rev, find_map in G; simpl in G.
  unfold lastWith. destruct (find _ (rev urls)) as [i|]; simpl in G; [|discriminate].
  inversion G; reflexivity.
Qed.

(** ** The candidate links *)

Lemma pushSnippets_app (urls : list GroundingUrl) (snippets : list ReviewSnippet) :
  pushSnippets urls snippets = urls ++ List.map untitled (snippetUris snippets).
Proof.
  unfold pushSnippets, push.
  revert urls; induction snippets as [|sn snippets IH]; intros urls; simpl.
  - symmetry; apply app_nil_r.
  - rewrite IH, map_app. destruct (snippet_uri sn) as [u|]; simpl; [|reflexivity].
    destruct (Js.truthy u); simpl; [|reflexivity].
    rewrite <- app_assoc; reflexivity.
Qed.

Lemma pushSources_app (urls : list GroundingUrl) (sources : list PlaceAnswerSource) :
  pushSources urls sources
  = urls ++ List.map untitled
              (flat_map (fun source => match reviewSnippets source with
                                       | Some snippets => snippetUris snippets
                                       | None => []
                                       end) sources).
Proof.
  unfold pushSources.
  revert urls; induction sources as [|src sources IH]; intros urls; simpl.
  - symmetry; apply app_nil_r.
  - rewrite IH, map_app. destruct (reviewSnippets src) as [snippets|]; simpl; [|reflexivity].
    rewrite pushSnippets_app, <- app_assoc; reflexivity.
Qed.

Lemma pushChunk_spec (urls : list GroundingUrl) (chunk : GroundingChunk) :
  pushChunk urls chunk
  = if iterableSources chunk then inl (urls ++ chunkLinks chunk) else inr notIterable.
Proof.
  unfold pushChunk, iterableSources, chunkLinks, directLink, nestedUris, push.
  destruct (maps chunk) as [m|]; [|rewrite app_nil_r; reflexivity].
  destruct (placeAnswerSources m) as [[sources|flag snippets]|];
    [rewrite pushSources_app| |];
    destruct (maps_uri m) as [u|]; simpl; try destruct (Js.truthy u); simpl;
    rewrite ?app_nil_r, <- ?app_assoc; reflexivity.
Qed.

Lemma pushChunks_spec (chunks : list GroundingChunk) (urls : list GroundingUrl) :
  pushChunks urls chunks
  = if forallb iterableSources chunks
    then inl (urls ++ flat_map chunkLinks chunks)
    else inr notIterable.
Proof.
  revert urls; induction chunks as [|chunk chunks IH]; intros urls; simpl.
  - rewrite app_nil_r; reflexivity.
  - rewrite pushChunk_spec. destruct (iterableSources chunk); simpl; [|reflexivity].
    rewrite IH, <- app_assoc; reflexivity.
Qed.

Lemma extractUrls_chunks (response : GenerateContentResponse)
    (chunks : list GroundingChunk) :
  responseChunks response = Some chunks ->
  extractUrls response
  = if forallb iterableSources chunks
    then inl (flat_map chunkLinks chunks)
    else inr notIterable.
Proof.
  intros H; unfold extractUrls; rewrite H; apply pushChunks_spec.
Qed.

Lemma extractUrls_candidateUrls (response : GenerateContentResponse)
    (cands : list GroundingUrl) :
  extractUrls response = inl cands -> candidateUrls response = cands.
Proof. intros H; unfold candidateUrls; rewrite H; reflexivity. Qed.

Lemma extractUrls_throws (response : GenerateContentResponse) (x : JsThrown) :
  extractUrls response = inr x -> x = notIterable.
Proof.
  unfold extractUrls. destruct (responseChunks response) as [chunks|]; [|discriminate].
  rewrite pushChunks_spec. destruct (forallb iterableSources chunks); [discriminate|].
  intros H; inversion H; reflexivity.
Qed.

Lemma candidateUrls_chunks (response : GenerateContentResponse)
    (chunks : list GroundingChunk) :
  responseChunks response = Some chunks ->
  forallb iterableSources chunks = true ->
  candidateUrls response = flat_map chunkLinks chunks.
Proof.
  intros H I. apply extractUrls_candidateUrls.
  rewrite (@extractUrls_chunks response chunks H), I; reflexivity.
Qed.

(** ** The grounding client *)

Lemma getPlaceInfo_unfold (api : Api) (c : LatLng) (q : jsstring) (w : Effects) :
  getPlaceInfo api c q w =
  let w1 := {| requests := requests w ++ [requestFor c q]; console := console w |} in
  match api (requestFor c q) with
  | inl response =>
      match text response with
      | Some body =>
          match extractUrls response with
          | inl cands =>
              (inl {| summary := Js.trim body; places := [];
                      urls := uniqueUrls cands |}, w1)
          | inr x =>
              (inr failedToFetch,
               {| requests := requests w1;
                  console := console w1 ++ [(errorLabel, x)] |})
          end
      | None =>
          (inr failedToFetch,
           {| requests := requests w1;
              console := console w1 ++ [(errorLabel, trimOfUndefined)] |})
      end
  | inr e =>
      (inr failedToFetch,
       {| requests := requests w1; console := console w1 ++ [(errorLabel, e)] |})
  end.
Proof.
  unfold getPlaceInfo, try_catch, bind, generateContent, processResponse, liftResult,
    throw, ret, console_error, errorLabel.
  destruct (api (requestFor c q)) as [response|e]; [|reflexivity].
  destruct (text response); [|reflexivity].
  destruct (extractUrls response); reflexivity.
Qed.

(** The service in two halves: the request leaves, and the answer is
    processed. *)
Lemma getPlaceInfo_split (api : Api) (c : LatLng) (q : jsstring) (w : Effects) :
  getPlaceInfo api c q w
  = settlePlaceInfo (api (requestFor c q)) (issue (requestFor c q) w).
Proof. reflexivity. Qed.

Lemma getPlaceInfo_success (api : Api) (c : LatLng) (q : jsstring) (w : Effects)
    (response : GenerateContentResponse) (body : jsstring) (cands : list GroundingUrl) :
  api (requestFor c q) = inl response -> text response = Some body ->
  extractUrls response = inl cands ->
  getPlaceInfo api c q w =
  (inl {| summary := Js.trim body; places := []; urls := uniqueUrls cands |},
   {| requests := requests w ++ [requestFor c q]; console := console w |}).
Proof.
  intros Ha Ht He. rewrite getPlaceInfo_unfold; simpl. rewrite Ha, Ht, He; reflexivity.
Qed.

Lemma getPlaceInfo_success_inv (api : Api) (c : LatLng) (q : jsstring) (w w' : Effects)
    (res : MapsGroundingResult) :
  getPlaceInfo api c q w = (inl res, w') ->
  exists response body,
    api (requestFor c q) = inl response /\ text response = Some body
    /\ extractUrls response = inl (candidateUrls response)
    /\ res = {| summary := Js.trim body; places := [];
                urls := uniqueUrls (candidateUrls response) |}.
Proof.
  rewrite getPlaceInfo_unfold; simpl.
  destruct (api (requestFor c q)) as [response|e]; [|discriminate].
  destruct (text response) as [body|] eqn:Ht; [|discriminate].
  destruct (extractUrls response) as [cands|x] eqn:He; [|discriminate].
  intros H; inversion H; subst. exists response, body.
  rewrite (@extractUrls_candidateUrls response cands He); auto.
Qed.

(** Whatever goes wrong, the caller sees the one generic error. *)
Lemma getPlaceInfo_throws_only_generic (api : Api) (c : LatLng) (q : jsstring)
    (w w' : Effects) (x : JsThrown) :
  getPlaceInfo api c q w = (inr x, w') -> x = failedToFetch.
Proof.
  rewrite getPlaceInfo_unfold; simpl.
  destruct (api (requestFor c q)) as [response|e];
    [destruct (text response); [destruct (extractUrls response)|]|];
    intros H; inversion H; reflexivity.
Qed.

(** C1 (amended). The URL list that [getPlaceInfo] returns holds every
    distinct URI of the candidate links exactly once, in the order in which
    the URIs are first seen; the link kept for a URI is the one of its LAST
    occurrence in the candidate list, so the title is the last one. *)
Theorem getPlaceInfo_urls_deduplicated (api : Api) (c : LatLng) (q : jsstring)
    (w w' : Effects) (response : GenerateContentResponse) (res : MapsGroundingResult) :
  api (requestFor c q) = inl response ->
  getPlaceInfo api c q w = (inl res, w') ->
  List.map uri (urls res) = firstSeen (List.map uri (candidateUrls response))
  /\ NoDup (List.map uri (urls res))
  /\ (forall u, In u (List.map uri (urls res)) <-> In u (List.map uri (candidateUrls response)))
  /\ (forall item, In item (urls res) ->
        lastWith (uri item) (candidateUrls response) = Some item).
Proof.
  intros Ha H. apply getPlaceInfo_success_inv in H.
  destruct H as [response' [body [Ha' [_ [_ ->]]]]].
  rewrite Ha in Ha'; inversion Ha'; subst response'; simpl.
  repeat split.
  - apply uniqueUrls_keys.
  - rewrite uniqueUrls_keys; apply NoDup_firstSeen.
  - rewrite uniqueUrls_keys; apply In_firstSeen.
  - rewrite uniqueUrls_keys; apply In_firstSeen.
  - apply uniqueUrls_last.
Qed.

Lemma getPlaceInfo_urls_deduplicated_witness :
  let response := responseWith (Some (Js.lit " Two cafes. ")) (Some [reviewedCafe; reviewsOnly]) in
  let res := {| summary := Js.lit "Two cafes."; places := [];
                urls := [untitled cafeUri; untitled reviewUri] |} in
  List.map uri (urls res) = firstSeen (List.map uri (candidateUrls response))
  /\ NoDup (List.map uri (urls res))
  /\ (forall u, In u (List.map uri (urls res)) <-> In u (List.map uri (candidateUrls response)))
  /\ (forall item, In item (urls res) ->
        lastWith (uri item) (candidateUrls response) = Some item).
Proof.
  intros response res.
  apply (@getPlaceInfo_urls_deduplicated (respond response) defaultKottayamCoords
           (Js.lit "cafes") noEffects
           {| requests := [requestFor defaultKottayamCoords (Js.lit "cafes")]; console := [] |}
           response res).
  - reflexivity.
  - vm_compute; reflexivity.
Defined.

(** The claim as the specification words it fails: a place whose review
    snippet repeats the URI of the place loses its title. *)
Lemma uniqueUrls_first_title_lost :
  ~ (forall item, In item (uniqueUrls (candidateUrls (responseWith None (Some [reviewedCafe])))) ->
       option_map title
         (firstWith (uri item) (candidateUrls (responseWith None (Some [reviewedCafe]))))
       = Some (title item)).
Proof.
  intros H. specialize (H (untitled cafeUri)).
  assert (E : In (untitled cafeUri)
                (uniqueUrls (candidateUrls (responseWith None (Some [reviewedCafe])))))
    by (vm_compute; left; reflexivity).
  apply H in E. vm_compute in E. discriminate E.
Qed.

(** On that response the map keeps the untitled link of the snippet, where
    the specification's wording keeps the titled link of the place. *)
Lemma uniqueUrls_vs_dedupFirstSeen :
  uniqueUrls (candidateUrls (responseWith None (Some [reviewedCafe]))) = [untitled cafeUri]
  /\ dedupFirstSeen (candidateUrls (responseWith None (Some [reviewedCafe])))
     = [{| uri := cafeUri; title := Some (Js.lit "Cafe A") |}].
Proof. split; vm_compute; reflexivity. Qed.

(** C5 (amended). [getPlaceInfo] issues one call, whose prompt is the
    built-in default when the given prompt is empty after trimming (the
    empty prompt included), and the TRIMMED prompt otherwise. *)
Theorem getPlaceInfo_query_sent (api : Api) (c : LatLng) (q : jsstring) (w : Effects) :
  requests (snd (getPlaceInfo api c q w)) = requests w ++ [requestFor c q]
  /\ (Js.trim q = [] -> contents (requestFor c q) = defaultQuery)
  /\ (Js.trim q <> [] -> contents (requestFor c q) = Js.trim q)
  /\ (q = [] -> contents (requestFor c q) = defaultQuery).
Proof.
  split.
  - rewrite getPlaceInfo_unfold; simpl.
    destruct (api (requestFor c q)) as [response|e];
      [destruct (text response); [destruct (extractUrls response)|]|]; reflexivity.
  - unfold requestFor, effectiveQuery; simpl. repeat split.
    + intros ->; reflexivity.
    + destruct (Js.trim q); [congruence | reflexivity].
    + intros ->; reflexivity.
Qed.

Lemma getPlaceInfo_query_sent_witness :
  Js.trim (Js.lit "  ") = []
  /\ Js.trim (Js.lit " cafes ") <> []
  /\ contents (requestFor defaultKottayamCoords (Js.lit "  ")) = defaultQuery
  /\ contents (requestFor defaultKottayamCoords (Js.lit " cafes ")) = Js.lit "cafes"
  /\ contents (requestFor defaultKottayamCoords []) = defaultQuery.
Proof.
  assert (T1 : Js.trim (Js.lit "  ") = []) by reflexivity.
  assert (T2 : Js.trim (Js.lit " cafes ") <> []) by (vm_compute; discriminate).
  pose proof (getPlaceInfo_query_sent (failWith failedToFetch) defaultKottayamCoords
                (Js.lit "  ") noEffects) as [_ [D _]].
  pose proof (getPlaceInfo_query_sent (failWith failedToFetch) defaultKottayamCoords
                (Js.lit " cafes ") noEffects) as [_ [_ [S _]]].
  pose proof (getPlaceInfo_query_sent (failWith failedToFetch) defaultKottayamCoords
                [] noEffects) as [_ [_ [_ E]]].
  split; [exact T1 | split; [exact T2 | split; [exact (D T1) | split]]].
  - rewrite (S T2); reflexivity.
  - exact (E eq_refl).
Defined.

(** A prompt with white space around it is not empty, and it is not what
    is sent. *)
Lemma getPlaceInfo_given_prompt_not_sent :
  Js.lit " cafes " <> []
  /\ List.map contents
       (requests (snd (getPlaceInfo (respond (responseWith (Some []) None))
                         defaultKottayamCoords (Js.lit " cafes ") noEffects)))
     <> [Js.lit " cafes "].
Proof. split; vm_compute; discriminate. Qed.



(** C7 (amended). A response without grounding chunks (the optional chain
    yields nothing, or the list of chunks is empty) THAT HAS A TEXT gives an
    empty URL list, and the summary is the text of the response, trimmed. *)
Theorem getPlaceInfo_no_chunks (api : Api) (c : LatLng) (q : jsstring) (w : Effects)
    (response : GenerateContentResponse) (body : jsstring) :
  api (requestFor c q) = inl response ->
  text response = Some body ->
  responseChunks response = None \/ responseChunks response = Some [] ->
  fst (getPlaceInfo api c q w)
  = inl {| summary := Js.trim body; places := []; urls := [] |}.
Proof.
  intros Ha Ht Hc.
  assert (He : extractUrls response = inl []).
  { unfold extractUrls. destruct Hc as [-> | ->]; reflexivity. }
  rewrite (@getPlaceInfo_success api c q w response body [] Ha Ht He); reflexivity.
Qed.

Lemma getPlaceInfo_no_chunks_witness :
  fst (getPlaceInfo (respond (responseWith (Some (Js.lit "  Nothing found nearby. ")) (Some [])))
         defaultKottayamCoords (Js.lit "cafes") noEffects)
  = inl {| summary := Js.trim (Js.lit "  Nothing found nearby. "); places := []; urls := [] |}.
Proof.
  apply (@getPlaceInfo_no_chunks
           (respond (responseWith (Some (Js.lit "  Nothing found nearby. ")) (Some [])))
           defaultKottayamCoords (Js.lit "cafes") noEffects
           (responseWith (Some (Js.lit "  Nothing found nearby. ")) (Some []))
           (Js.lit "  Nothing found nearby. ")).
  - reflexivity.
  - reflexivity.
  - right; reflexivity.
Defined.

(** Without the text the claim fails: a response with no chunks and no
    text makes line 83 throw, and nothing is returned. *)
Lemma getPlaceInfo_no_chunks_no_text_throws :
  responseChunks (responseWith None (Some [])) = Some []
  /\ fst (getPlaceInfo (respond (responseWith None (Some [])))
            defaultKottayamCoords (Js.lit "cafes") noEffects)
     = inr failedToFetch
  /\ forall res,
       fst (getPlaceInfo (respond (responseWith None (Some [])))
              defaultKottayamCoords (Js.lit "cafes") noEffects)
       <> inl res.
Proof.
  split; [reflexivity|]. split; [vm_compute; reflexivity|].
  intros res H. vm_compute in H. discriminate H.
Qed.

(** C8. Every result that [getPlaceInfo] returns has an empty list of
    places; and it does return one whenever the API answers with a response
    that has a text and whose links can be extracted. *)
Theorem getPlaceInfo_places_empty (api : Api) (c : LatLng) (q : jsstring) (w : Effects) :
  (forall res w', getPlaceInfo api c q w = (inl res, w') -> places res = [])
  /\ (forall response body cands,
        api (requestFor c q) = inl response -> text response = Some body ->
        extractUrls response = inl cands ->
        exists res w', getPlaceInfo api c q w = (inl res, w') /\ places res = []).
Proof.
  split.
  - intros res w' H. apply getPlaceInfo_success_inv in H.
    destruct H as [response [body [_ [_ [_ ->]]]]]; reflexivity.
  - intros response body cands Ha Ht He.
    rewrite (@getPlaceInfo_success api c q w response body cands Ha Ht He).
    eexists; eexists; split; reflexivity.
Qed.

Lemma getPlaceInfo_places_empty_witness :
  places {| summary := Js.lit "Two cafes."; places := [];
            urls := [untitled cafeUri; untitled reviewUri] |} = [].
Proof.
  apply (proj1 (getPlaceInfo_places_empty
                  (respond (responseWith (Some (Js.lit " Two cafes. "))
                              (Some [reviewedCafe; reviewsOnly])))
                  defaultKottayamCoords (Js.lit "cafes") noEffects)
           _ {| requests := [requestFor defaultKottayamCoords (Js.lit "cafes")]; console := [] |}).
  vm_compute; reflexivity.
Defined.

(** On place answer sources that are an array, the code does what is
    expected of it. A chunk without a "maps" annotation adds nothing to the
    candidate links; a chunk with a "maps" annotation but no URI of its own
    adds no direct link, and adds one untitled link for every URI that is
    present under the review snippets of its sources, in order. *)
Lemma pushChunk_without_uri (urls : list GroundingUrl) (chunk : GroundingChunk) :
  (maps chunk = None -> pushChunk urls chunk = inl urls)
  /\ (forall m sources,
        maps chunk = Some m -> Js.truthy_opt (maps_uri m) = false ->
        placeAnswerSources m = Some (SourcesArray sources) ->
        pushChunk urls chunk = inl (urls ++ List.map untitled (nestedUris m))).
Proof.
  split.
  - intros H. unfold pushChunk; rewrite H; reflexivity.
  - intros m sources Hm Hu Hs. rewrite pushChunk_spec.
    unfold iterableSources, chunkLinks, directLink; rewrite Hm, Hs.
    unfold Js.truthy_opt in Hu. destruct (maps_uri m) as [u0|]; [rewrite Hu|]; reflexivity.
Qed.

(** Any chunk whose place answer sources have the declared shape makes
    the whole call fail, whatever else the response holds. *)
Lemma getPlaceInfo_fails_on_declared_shape (api : Api) (c : LatLng) (q : jsstring)
    (w : Effects) (response : GenerateContentResponse) (chunks : list GroundingChunk)
    (chunk : GroundingChunk) :
  api (requestFor c q) = inl response ->
  responseChunks response = Some chunks ->
  In chunk chunks ->
  iterableSources chunk = false ->
  fst (getPlaceInfo api c q w) = inr failedToFetch.
Proof.
  intros Ha Hr Hin Hi. rewrite getPlaceInfo_unfold; simpl. rewrite Ha.
  destruct (text response); [|reflexivity].
  rewrite (@extractUrls_chunks response chunks Hr).
  assert (F : forallb iterableSources chunks = false).
  { destruct (forallb iterableSources chunks) eqn:E; [|reflexivity].
    rewrite forallb_forall in E. rewrite (E chunk Hin) in Hi; discriminate Hi. }
  rewrite F; reflexivity.
Qed.

(** C10. The code at the failing input: a chunk with a "maps" annotation,
    no URI of its own, and place answer sources of the shape that the client
    library declares, which hold one review snippet with a URI. The claim
    has that URI collected without a title; line 97 throws instead, the URI
    is not returned, and the call fails with the generic error although the
    response has a text. *)
Theorem getPlaceInfo_declared_shape_throws :
  nestedSnippetUris declaredShapeMaps = [reviewUri]
  /\ pushChunk [] declaredShape = inr notIterable
  /\ getPlaceInfo (respond (responseWith (Some (Js.lit "One cafe.")) (Some [declaredShape])))
       defaultKottayamCoords (Js.lit "cafes") noEffects
     = (inr failedToFetch,
        {| requests := [requestFor defaultKottayamCoords (Js.lit "cafes")];
           console := [(errorLabel, notIterable)] |}).
Proof. split; [|split]; vm_compute; reflexivity. Qed.

(** ** The search handler *)

Lemma resolveTarget_refused (s : AppState) :
  searchContext s = currentLocation -> actualUserLocationDetermined s = false ->
  resolveTarget s = Refused locationRefusal.
Proof. unfold resolveTarget; intros -> ->; reflexivity. Qed.

(** A search that is not refused issues exactly one call, with the
    composed prompt. *)
Lemma handleSearch_issues_call (api : Api) (s : AppState) (w : Effects)
    (targetCoords : LatLng) (locationDescription : jsstring) :
  resolveTarget s = Resolved (Some targetCoords) locationDescription ->
  requests (snd (handleSearch api s w))
  = requests w ++ [requestFor targetCoords
                     (composeQuery (searchContext s) (filterCategory s) (prompt s))].
Proof.
  intros H. unfold handleSearch. rewrite H.
  rewrite getPlaceInfo_unfold. cbv zeta.
  destruct (api _) as [response|e];
    [destruct (text response); [destruct (extractUrls response)|]|]; reflexivity.
Qed.

(** C4. In the "current location" context with a coordinate that was not
    actually determined, the handler sets the refusal message and issues no
    call: the effects are exactly the ones before. *)
Theorem handleSearch_refuses_undetermined (api : Api) (s : AppState) (w : Effects) :
  searchContext s = currentLocation ->
  actualUserLocationDetermined s = false ->
  error (fst (handleSearch api s w))
  = Some (Js.lit "Your current location could not be determined. Please select 'Kottayam City' or enable geolocation.")
  /\ requests (snd (handleSearch api s w)) = requests w
  /\ snd (handleSearch api s w) = w.
Proof.
  intros Hc Hd. unfold handleSearch. rewrite (resolveTarget_refused s Hc Hd).
  repeat split.
Qed.

Lemma handleSearch_refuses_undetermined_witness :
  error (fst (handleSearch (respond (responseWith (Some (Js.lit "x")) None)) staleState noEffects))
  = Some (Js.lit "Your current location could not be determined. Please select 'Kottayam City' or enable geolocation.")
  /\ requests (snd (handleSearch (respond (responseWith (Some (Js.lit "x")) None)) staleState noEffects))
      = requests noEffects
  /\ snd (handleSearch (respond (responseWith (Some (Js.lit "x")) None)) staleState noEffects)
      = noEffects.
Proof.
  apply (handleSearch_refuses_undetermined
           (respond (responseWith (Some (Js.lit "x")) None)) staleState noEffects);
    reflexivity.
Defined.

(** C9. On that refusal nothing but the error message changes: the
    summary, the URL list and the loading flag on display, and the form
    fields, keep their values. *)
Theorem handleSearch_refusal_keeps_state (api : Api) (s : AppState) (w : Effects) :
  searchContext s = currentLocation ->
  actualUserLocationDetermined s = false ->
  fst (handleSearch api s w) = setError (Some locationRefusal) s
  /\ generalSummary (fst (handleSearch api s w)) = generalSummary s
  /\ responseUrls (fst (handleSearch api s w)) = responseUrls s
  /\ loading (fst (handleSearch api s w)) = loading s
  /\ userLocation (fst (handleSearch api s w)) = userLocation s
  /\ actualUserLocationDetermined (fst (handleSearch api s w)) = actualUserLocationDetermined s
  /\ searchContext (fst (handleSearch api s w)) = searchContext s
  /\ prompt (fst (handleSearch api s w)) = prompt s
  /\ filterCategory (fst (handleSearch api s w)) = filterCategory s.
Proof.
  intros Hc Hd. unfold handleSearch. rewrite (resolveTarget_refused s Hc Hd).
  repeat split.
Qed.

Lemma handleSearch_refusal_keeps_state_witness :
  fst (handleSearch (failWith (OtherValue [])) staleState noEffects)
  = setError (Some locationRefusal) staleState
  /\ generalSummary (fst (handleSearch (failWith (OtherValue [])) staleState noEffects))
      = Some (Js.lit "Two cafes.")
  /\ responseUrls (fst (handleSearch (failWith (OtherValue [])) staleState noEffects))
      = [untitled cafeUri]
  /\ loading (fst (handleSearch (failWith (OtherValue [])) staleState noEffects)) = false.
Proof.
  destruct (handleSearch_refusal_keeps_state (failWith (OtherValue [])) staleState noEffects)
    as [E [G [U [L _]]]]; try reflexivity.
  exact (conj E (conj G (conj U L))).
Defined.

(** ** The composed prompt *)

Lemma quoted_app (s : jsstring) : quoted s = [Js.dquote] ++ s ++ [Js.dquote].
Proof. reflexivity. Qed.

Lemma composeQuery_clauses (sc : SearchContext) (fc p : jsstring) :
  composeQuery sc fc p
  = queryPreamble ++ userClause p ++ categoryClause fc ++ areaClause sc.
Proof.
  unfold composeQuery, userClause, categoryClause, areaClause.
  destruct (Js.truthy (Js.trim p)); destruct (negb (Js.eqb fc (Js.lit "all")));
    destruct sc; rewrite <- ?app_assoc; reflexivity.
Qed.

Lemma composeQuery_userClause (sc : SearchContext) (fc p : jsstring) :
  Js.Contains (composeQuery sc fc p) (userClause p).
Proof. rewrite composeQuery_clauses; apply Contains_middle. Qed.

Lemma composeQuery_categoryClause (sc : SearchContext) (fc p : jsstring) :
  Js.Contains (composeQuery sc fc p) (categoryClause fc).
Proof.
  rewrite composeQuery_clauses.
  exists (queryPreamble ++ userClause p), (areaClause sc).
  rewrite <- ?app_assoc; reflexivity.
Qed.

Lemma trim_truthy (p : jsstring) : Js.trim p <> [] -> Js.truthy (Js.trim p) = true.
Proof. destruct (Js.trim p); [congruence | reflexivity]. Qed.

Lemma userClause_text (p : jsstring) :
  Js.trim p <> [] -> Js.Contains (userClause p) (Js.trim p).
Proof.
  intros H. unfold userClause. rewrite (@trim_truthy p H), quoted_app.
  exists (Js.lit "The user is looking for: " ++ [Js.dquote]), ([Js.dquote] ++ Js.lit ".").
  rewrite <- ?app_assoc; reflexivity.
Qed.

(** C2 (amended). When the free text is not empty after trimming, the
    composed prompt contains the TRIMMED text, in quotes after "The user is
    looking for: "; a text without white space around it is contained as it
    is. *)
Theorem composeQuery_contains_trimmed_text (sc : SearchContext) (fc p : jsstring) :
  Js.trim p <> [] ->
  Js.includes (composeQuery sc fc p)
    (Js.lit "The user is looking for: " ++ quoted (Js.trim p) ++ Js.lit ".") = true
  /\ Js.includes (composeQuery sc fc p) (Js.trim p) = true
  /\ (Js.trim p = p -> Js.includes (composeQuery sc fc p) p = true).
Proof.
  intros H.
  assert (U : Js.Contains (composeQuery sc fc p)
                (Js.lit "The user is looking for: " ++ quoted (Js.trim p) ++ Js.lit ".")).
  { pose proof (composeQuery_userClause sc fc p) as C.
    unfold userClause in C. rewrite (@trim_truthy p H) in C. exact C. }
  assert (T : Js.Contains (composeQuery sc fc p) (Js.trim p)).
  { apply Contains_trans with (t := userClause p).
    - apply composeQuery_userClause.
    - apply userClause_text; exact H. }
  split; [|split].
  - apply includes_Contains; exact U.
  - apply includes_Contains; exact T.
  - intros E. rewrite E in T. apply includes_Contains; exact T.
Qed.

Lemma composeQuery_contains_trimmed_text_witness :
  Js.trim (Js.lit " pizza ") <> []
  /\ Js.includes (composeQuery kottayam (Js.lit "all") (Js.lit " pizza ")) (Js.lit "pizza") = true.
Proof.
  assert (T : Js.trim (Js.lit " pizza ") <> []) by (vm_compute; discriminate).
  split; [exact T|].
  exact (proj1 (proj2 (@composeQuery_contains_trimmed_text kottayam (Js.lit "all")
                          (Js.lit " pizza ") T))).
Defined.

(** A free text with white space at its end is not empty, and the prompt
    does not contain it as typed. *)
Lemma composeQuery_misses_padded_text :
  Js.lit "pizza " <> []
  /\ Js.includes (composeQuery kottayam (Js.lit "all") (Js.lit "pizza ")) (Js.lit "pizza ")
     = false.
Proof. split; [vm_compute; discriminate | vm_compute; reflexivity]. Qed.

(** Between quotes, a text [x] without a quote occurs in the whole exactly
    when it occurs in the quoted part, if it occurs in neither side. *)
Lemma includes_quoted (a b t x : jsstring) :
  ~ In Js.dquote x ->
  Js.includes a x = false -> Js.includes b x = false ->
  Js.includes (a ++ quoted t ++ b) x = Js.includes t x.
Proof.
  intros Hq Ha Hb. apply not_includes in Ha, Hb.
  apply eq_iff_eq_true. rewrite !includes_Contains. split.
  - intros C. unfold quoted in C.
    change (a ++ (Js.dquote :: t ++ [Js.dquote]) ++ b)
      with (a ++ Js.dquote :: ((t ++ [Js.dquote]) ++ b)) in C.
    rewrite <- app_assoc in C.
    apply (@Contains_split _ _ x Js.dquote Hq) in C. destruct C as [C|C]; [contradiction|].
    apply (@Contains_split _ _ x Js.dquote Hq) in C. destruct C as [C|C]; [exact C | contradiction].
  - intros C. apply Contains_trans with (t := t); [|exact C].
    exists (a ++ [Js.dquote]), ([Js.dquote] ++ b).
    rewrite quoted_app, <- ?app_assoc; reflexivity.
Qed.

Lemma variousPhrase_unquoted : ~ In Js.dquote variousPhrase.
Proof.
  intros H. vm_compute in H.
  repeat (destruct H as [H|H]; [discriminate H|]). exact H.
Qed.

Lemma filterOptions_cases (value label : jsstring) :
  In (value, label) filterOptions ->
  value <> Js.lit "all" ->
  (value, label) = (Js.lit "companies_shops", Js.lit "Companies & Shops")
  \/ (value, label) = (Js.lit "restaurants", Js.lit "Restaurants")
  \/ (value, label) = (Js.lit "attractions", Js.lit "Attractions & Landmarks")
  \/ (value, label) = (Js.lit "hotels", Js.lit "Hotels & Accommodations")
  \/ (value, label) = (Js.lit "services", Js.lit "Services (e.g., banks, hospitals)").
Proof.
  unfold filterOptions. intros [H|H] Hv.
  - inversion H; subst. exfalso; apply Hv; reflexivity.
  - cbn [In] in H. repeat (destruct H as [H|H]; [symmetry in H; tauto|]). destruct H.
Qed.

(** With a specific category, the phrase of the generic clause is in the
    prompt exactly when the user typed it. *)
Lemma composeQuery_variousPhrase (sc : SearchContext) (value label p : jsstring) :
  In (value, label) filterOptions ->
  value <> Js.lit "all" ->
  Js.includes (composeQuery sc value p) variousPhrase
  = Js.includes (Js.trim p) variousPhrase.
Proof.
  intros Hin Hv. rewrite composeQuery_clauses. unfold userClause.
  destruct (Js.trim p) as [|c t] eqn:Et.
  - cbn [Js.truthy app].
    destruct (@filterOptions_cases value label Hin Hv) as [E|[E|[E|[E|E]]]];
      inversion E; subst; destruct sc; vm_compute; reflexivity.
  - cbn [Js.truthy].
    replace (queryPreamble
             ++ (Js.lit "The user is looking for: " ++ quoted (c :: t) ++ Js.lit ".")
             ++ categoryClause value ++ areaClause sc)
      with ((queryPreamble ++ Js.lit "The user is looking for: ")
             ++ quoted (c :: t)
             ++ (Js.lit "." ++ categoryClause value ++ areaClause sc))
      by (rewrite <- ?app_assoc; reflexivity).
    apply includes_quoted.
    + apply variousPhrase_unquoted.
    + vm_compute; reflexivity.
    + destruct (@filterOptions_cases value label Hin Hv) as [E|[E|[E|[E|E]]]];
        inversion E; subst; destruct sc; vm_compute; reflexivity.
Qed.

Lemma genericClause_variousPhrase : Js.Contains genericClause variousPhrase.
Proof. apply includes_Contains; vm_compute; reflexivity. Qed.

Lemma categoryClause_label (value label : jsstring) :
  In (value, label) filterOptions ->
  value <> Js.lit "all" ->
  categoryClause value
  = Js.lit " Specifically focus on results in the "
    ++ quoted (Js.toLowerCase label) ++ Js.lit " category.".
Proof.
  intros Hin Hv.
  destruct (@filterOptions_cases value label Hin Hv) as [E|[E|[E|[E|E]]]];
    inversion E; subst; vm_compute; reflexivity.
Qed.

(** C3 (amended). With a category of the form other than "all", the
    composed prompt contains the label of the category in lower case, and it
    contains the words of the generic clause exactly when the user's own
    (trimmed) text contains them, so never when the text is free of them;
    with "all" it contains the generic clause. *)
Theorem composeQuery_category (sc : SearchContext) (value label p : jsstring) :
  In (value, label) filterOptions ->
  (value <> Js.lit "all" ->
     Js.includes (composeQuery sc value p) (Js.toLowerCase label) = true
     /\ Js.includes (composeQuery sc value p) variousPhrase
        = Js.includes (Js.trim p) variousPhrase
     /\ (Js.includes (Js.trim p) variousPhrase = false ->
         Js.includes (composeQuery sc value p) genericClause = false))
  /\ (value = Js.lit "all" ->
      Js.includes (composeQuery sc value p) genericClause = true).
Proof.
  intros Hin. split.
  - intros Hv. split; [|split].
    + apply includes_Contains.
      apply Contains_trans with (t := categoryClause value).
      * apply composeQuery_categoryClause.
      * rewrite (@categoryClause_label value label Hin Hv), quoted_app.
        exists (Js.lit " Specifically focus on results in the " ++ [Js.dquote]),
               ([Js.dquote] ++ Js.lit " category.").
        rewrite <- ?app_assoc; reflexivity.
    + apply (@composeQuery_variousPhrase sc value label p Hin Hv).
    + intros Hp. apply not_includes. intros C.
      rewrite <- (@composeQuery_variousPhrase sc value label p Hin Hv) in Hp.
      apply not_includes in Hp. apply Hp.
      apply Contains_trans with (t := genericClause);
        [exact C | apply genericClause_variousPhrase].
  - intros ->. apply includes_Contains.
    apply (composeQuery_categoryClause sc (Js.lit "all") p).
Qed.

Lemma composeQuery_category_witness :
  Js.includes (composeQuery kottayam (Js.lit "restaurants") []) (Js.lit "restaurants") = true
  /\ Js.includes (composeQuery kottayam (Js.lit "restaurants") []) genericClause = false
  /\ Js.includes (composeQuery currentLocation (Js.lit "all") (Js.lit "open late")) genericClause
     = true.
Proof.
  pose proof (@composeQuery_category kottayam (Js.lit "restaurants") (Js.lit "Restaurants") [])
    as R.
  pose proof (@composeQuery_category currentLocation (Js.lit "all") (Js.lit "All Categories")
                (Js.lit "open late")) as A.
  destruct R as [R _]; [right; right; left; reflexivity|].
  destruct A as [_ A]; [left; reflexivity|].
  destruct R as [L [_ G]]; [vm_compute; discriminate|].
  split; [exact L | split; [apply G; reflexivity | apply A; reflexivity]].
Defined.

(** With the category "restaurants", a free text that quotes the generic
    clause puts the clause into the prompt. *)
Lemma composeQuery_generic_clause_typed :
  In (Js.lit "restaurants", Js.lit "Restaurants") filterOptions
  /\ Js.lit "restaurants" <> Js.lit "all"
  /\ Js.includes
       (composeQuery kottayam (Js.lit "restaurants")
          (Js.lit "Cafes. Include various types of places such as companies, shops, restaurants, attractions, and services."))
       genericClause = true.
Proof.
  split; [right; right; left; reflexivity|].
  split; [vm_compute; discriminate | vm_compute; reflexivity].
Qed.

(** The composed prompt starts with a letter and ends with a full stop, so
    the service sends it as it is. *)
Lemma effectiveQuery_composeQuery (sc : SearchContext) (fc p : jsstring) :
  effectiveQuery (composeQuery sc fc p) = composeQuery sc fc p.
Proof.
  assert (S : exists mid, composeQuery sc fc p = 89%N :: mid ++ [46%N]).
  { rewrite composeQuery_clauses. unfold areaClause.
    exists (tl queryPreamble ++ userClause p ++ categoryClause fc
            ++ Js.lit " Provide details for places in "
            ++ match sc with
               | kottayam => Js.lit "Kottayam city"
               | currentLocation => Js.lit "this area near my current location"
               end).
    change (Js.lit ".") with [46%N].
    change queryPreamble with (89%N :: tl queryPreamble) at 1.
    rewrite <- ?app_assoc, <- app_comm_cons. reflexivity. }
  destruct S as [mid E]. unfold effectiveQuery.
  rewrite E, trim_fixed by reflexivity. reflexivity.
Qed.

(** The example of the specification: city centre, restaurants, no free
    text. *)
Example composeQuery_restaurants_in_kottayam :
  composeQuery kottayam (Js.lit "restaurants") []
  = queryPreamble
    ++ Js.lit " Specifically focus on results in the " ++ quoted (Js.lit "restaurants")
    ++ Js.lit " category. Provide details for places in Kottayam city.".
Proof. vm_compute; reflexivity. Qed.

(** A search of the city that succeeds: the summary and the links are on
    display, nothing is loading, and one call was issued. *)
Example handleSearch_city_search :
  let api := respond (responseWith (Some (Js.lit " Two cafes. ")) (Some [reviewedCafe; reviewsOnly])) in
  let s := setError (Some locationRefusal)
             {| userLocation := None; actualUserLocationDetermined := false;
                searchContext := kottayam; prompt := Js.lit " cafes ";
                filterCategory := Js.lit "restaurants"; generalSummary := None;
                responseUrls := []; loading := false; error := None |} in
  let (s', w') := handleSearch api s noEffects in
  generalSummary s' = Some (Js.lit "Two cafes.")
  /\ responseUrls s' = [untitled cafeUri; untitled reviewUri]
  /\ loading s' = false /\ error s' = None
  /\ List.map contents (requests w')
      = [composeQuery kottayam (Js.lit "restaurants") (Js.lit " cafes ")]
  /\ console w' = [].
Proof. vm_compute. repeat split. Qed.

(** * Further properties of the code *)

(** ** More on strings and on the map *)

Lemma trim_id (t : jsstring) :
  (forall c rest, t = c :: rest -> Js.isWhiteSpace c = false) ->
  (forall c front, t = front ++ [c] -> Js.isWhiteSpace c = false) ->
  Js.trim t = t.
Proof.
  intros Hhead Hlast. unfold Js.trim, Js.trimEnd.
  assert (S : Js.trimStart t = t).
  { destruct t as [|c rest]; [reflexivity|].
    simpl. rewrite (Hhead c rest eq_refl); reflexivity. }
  rewrite S. destruct (rev t) as [|c r] eqn:E.
  - simpl. rewrite <- (rev_involutive t), E; reflexivity.
  - assert (T : t = rev r ++ [c]) by (rewrite <- (rev_involutive t), E; reflexivity).
    simpl. rewrite (Hlast c (rev r) T). simpl. symmetry; exact T.
Qed.

Lemma trim_idempotent (s : jsstring) : Js.trim (Js.trim s) = Js.trim s.
Proof.
  destruct (trim_spec s) as [lead [trail [_ [_ [_ [Hh Hl]]]]]].
  apply trim_id; assumption.
Qed.

Lemma set_fresh {V} (k : jsstring) (v : V) (m : JsMap.t V) :
  ~ In k (JsMap.keys m) -> JsMap.set k v m = m ++ [(k, v)].
Proof.
  induction m as [|[k' v'] m IH]; simpl; [reflexivity|].
  intros H. destruct (Js.eqb k k') eqn:E.
  - apply eqb_eq in E; subst; tauto.
  - f_equal; apply IH; tauto.
Qed.

Lemma from_entries_NoDup {V} (es : list (jsstring * V)) :
  NoDup (List.map fst es) -> JsMap.from_entries es = es.
Proof.
  induction es as [|e es IH] using rev_ind; intros ND; [reflexivity|].
  rewrite map_app in ND; simpl in ND.
  apply NoDup_remove in ND. rewrite app_nil_r in ND. destruct ND as [ND Hfresh].
  rewrite from_entries_snoc, IH by exact ND.
  rewrite set_fresh by exact Hfresh. destruct e; reflexivity.
Qed.

Lemma uniqueUrls_NoDup (l : list GroundingUrl) :
  NoDup (List.map uri l) -> uniqueUrls l = l.
Proof.
  intros ND. unfold uniqueUrls, urlEntries, JsMap.values.
  rewrite from_entries_NoDup by (rewrite map_map; exact ND).
  rewrite map_map; simpl. apply map_id.
Qed.

Lemma uniqueUrls_subset (l : list GroundingUrl) (item : GroundingUrl) :
  In item (uniqueUrls l) -> In item l.
Proof.
  intros H. apply uniqueUrls_last in H. unfold lastWith in H.
  apply find_some in H. apply in_rev; tauto.
Qed.

Lemma length_firstSeen (ks : list jsstring) : List.length (firstSeen ks) <= List.length ks.
Proof.
  induction ks as [|k ks IH]; simpl; [constructor|].
  apply le_n_S. eapply Nat.le_trans; [apply filter_length_le | exact IH].
Qed.

Lemma snippetUris_truthy (snippets : list ReviewSnippet) (u : jsstring) :
  In u (snippetUris snippets) -> u <> [].
Proof.
  unfold snippetUris. rewrite in_flat_map. intros [sn [_ H]].
  destruct (snippet_uri sn) as [u0|]; [|destruct H].
  destruct u0; simpl in H; [destruct H|].
  destruct H as [<-|[]]; discriminate.
Qed.

Lemma nestedUris_truthy (m : GroundingChunkMaps) (u : jsstring) :
  In u (nestedUris m) -> u <> [].
Proof.
  unfold nestedUris.
  destruct (placeAnswerSources m) as [[sources|flag snippets]|]; try (intros []).
  rewrite in_flat_map. intros [src [_ H]].
  destruct (reviewSnippets src) as [snippets|]; [|destruct H].
  apply snippetUris_truthy with (snippets := snippets); exact H.
Qed.

Lemma chunkLinks_truthy (chunk : GroundingChunk) (item : GroundingUrl) :
  In item (chunkLinks chunk) -> uri item <> [].
Proof.
  unfold chunkLinks, directLink. destruct (maps chunk) as [m|]; [|intros []].
  rewrite in_app_iff, in_map_iff. intros [H | [u [<- H]]].
  - destruct (maps_uri m) as [u|]; [|destruct H].
    destruct u; simpl in H; [destruct H|].
    destruct H as [<-|[]]; discriminate.
  - simpl. apply nestedUris_truthy with (m := m); exact H.
Qed.

Lemma candidateUrls_truthy (response : GenerateContentResponse) (item : GroundingUrl) :
  In item (candidateUrls response) -> uri item <> [].
Proof.
  unfold candidateUrls, extractUrls.
  destruct (responseChunks response) as [chunks|]; [|intros []].
  rewrite pushChunks_spec. destruct (forallb iterableSources chunks); [|intros []].
  simpl. rewrite in_flat_map. intros [chunk [_ H]].
  apply chunkLinks_truthy with (chunk := chunk); exact H.
Qed.

(** ** The grounding client, further *)

(** X1. Every link that [getPlaceInfo] returns has a URI that is not
    empty, so the text of the link on the page (the title, or the URI when
    the title is missing or empty) is never empty. *)
Theorem getPlaceInfo_links_have_text (api : Api) (c : LatLng) (q : jsstring)
    (w w' : Effects) (res : MapsGroundingResult) (item : GroundingUrl) :
  getPlaceInfo api c q w = (inl res, w') ->
  In item (urls res) ->
  uri item <> [] /\ linkText item <> [].
Proof.
  intros H Hin. apply getPlaceInfo_success_inv in H.
  destruct H as [response [body [_ [_ [_ ->]]]]]; simpl in Hin.
  apply uniqueUrls_subset, candidateUrls_truthy in Hin.
  split; [exact Hin|].
  unfold linkText, Js.truthy_opt. destruct (title item) as [[|d t]|]; simpl;
    try exact Hin; discriminate.
Qed.

Lemma getPlaceInfo_links_have_text_witness :
  uri (untitled reviewUri) <> [] /\ linkText (untitled reviewUri) <> [].
Proof.
  apply (@getPlaceInfo_links_have_text
           (respond (responseWith (Some (Js.lit " Two cafes. "))
                       (Some [reviewedCafe; reviewsOnly])))
           defaultKottayamCoords (Js.lit "cafes") noEffects
           {| requests := [requestFor defaultKottayamCoords (Js.lit "cafes")]; console := [] |}
           {| summary := Js.lit "Two cafes."; places := [];
              urls := [untitled cafeUri; untitled reviewUri] |}
           (untitled reviewUri)).
  - vm_compute; reflexivity.
  - right; left; reflexivity.
Defined.

(** X2. The deduplication never adds a link, and a candidate list without
    a repeated URI is returned as it is. *)
Theorem getPlaceInfo_urls_unchanged_without_duplicates (api : Api) (c : LatLng)
    (q : jsstring) (w w' : Effects) (response : GenerateContentResponse)
    (res : MapsGroundingResult) :
  api (requestFor c q) = inl response ->
  getPlaceInfo api c q w = (inl res, w') ->
  List.length (urls res) <= List.length (candidateUrls response)
  /\ (NoDup (List.map uri (candidateUrls response)) -> urls res = candidateUrls response).
Proof.
  intros Ha H. apply getPlaceInfo_success_inv in H.
  destruct H as [response' [body [Ha' [_ [_ ->]]]]].
  rewrite Ha in Ha'; inversion Ha'; subst response'; simpl. split.
  - rewrite <- (length_map uri (uniqueUrls _)), uniqueUrls_keys.
    rewrite <- (length_map uri (candidateUrls _)). apply length_firstSeen.
  - apply uniqueUrls_NoDup.
Qed.

Lemma getPlaceInfo_urls_unchanged_without_duplicates_witness :
  let response := responseWith (Some (Js.lit "One cafe.")) (Some [reviewsOnly]) in
  NoDup (List.map uri (candidateUrls response))
  /\ urls {| summary := Js.lit "One cafe."; places := [];
             urls := [untitled reviewUri; untitled cafeUri] |}
     = candidateUrls response.
Proof.
  intros response.
  assert (ND : NoDup (List.map uri (candidateUrls response))).
  { vm_compute. repeat constructor; simpl; intros H;
      repeat (destruct H as [H|H]; [discriminate H|]); exact H. }
  split; [exact ND|].
  apply (proj2 (@getPlaceInfo_urls_unchanged_without_duplicates
                  (respond response) defaultKottayamCoords (Js.lit "cafes") noEffects
                  {| requests := [requestFor defaultKottayamCoords (Js.lit "cafes")];
                     console := [] |}
                  response
                  {| summary := Js.lit "One cafe."; places := [];
                     urls := [untitled reviewUri; untitled cafeUri] |}
                  eq_refl ltac:(vm_compute; reflexivity))).
  exact ND.
Defined.

(** X3. Deduplicating twice is deduplicating once. *)
Theorem uniqueUrls_idempotent (l : list GroundingUrl) :
  uniqueUrls (uniqueUrls l) = uniqueUrls l.
Proof.
  apply uniqueUrls_NoDup. rewrite uniqueUrls_keys. apply NoDup_firstSeen.
Qed.

Lemma filter_map_swap {A B} (f : A -> B) (p : B -> bool) (l : list A) :
  filter p (List.map f l) = List.map f (filter (fun x => p (f x)) l).
Proof.
  induction l as [|x l IH]; simpl; [reflexivity|].
  destruct (p (f x)); simpl; rewrite IH; reflexivity.
Qed.

Lemma dedupFirstSeen_keys (l : list GroundingUrl) :
  List.map uri (dedupFirstSeen l) = firstSeen (List.map uri l).
Proof.
  induction l as [|item l IH]; simpl; [reflexivity|].
  rewrite <- IH, filter_map_swap; reflexivity.
Qed.

Lemma dedupFirstSeen_subset (l : list GroundingUrl) (x : GroundingUrl) :
  In x (dedupFirstSeen l) -> In x l.
Proof.
  induction l as [|item l IH]; simpl; [tauto|].
  rewrite filter_In. intros [H|[H _]]; [left; exact H | right; apply IH; exact H].
Qed.

Lemma map_injective_on {A B} (f : A -> B) (l1 l2 : list A) :
  List.map f l1 = List.map f l2 ->
  (forall a b, In a l1 -> In b l2 -> f a = f b -> a = b) ->
  l1 = l2.
Proof.
  revert l2; induction l1 as [|a l1 IH]; intros [|b l2] E Inj; simpl in E;
    try discriminate; [reflexivity|].
  inversion E. f_equal.
  - apply Inj; simpl; auto.
  - apply IH; [assumption|]. intros x y Hx Hy; apply Inj; simpl; auto.
Qed.

(** X4. When the links that share a URI also share their title, the list
    returned is the list of first occurrences: the later repetitions are
    dropped and nothing else changes. *)
Theorem uniqueUrls_first_occurrences_when_titles_agree (l : list GroundingUrl) :
  (forall a b, In a l -> In b l -> uri a = uri b -> title a = title b) ->
  uniqueUrls l = dedupFirstSeen l.
Proof.
  intros Agree. apply map_injective_on with (f := uri).
  - rewrite uniqueUrls_keys, dedupFirstSeen_keys; reflexivity.
  - intros a b Ha Hb E.
    apply uniqueUrls_subset in Ha. apply dedupFirstSeen_subset in Hb.
    specialize (Agree a b Ha Hb E). destruct a, b; simpl in *; congruence.
Qed.

Lemma uniqueUrls_first_occurrences_when_titles_agree_witness :
  uniqueUrls [untitled cafeUri; untitled reviewUri; untitled cafeUri]
  = dedupFirstSeen [untitled cafeUri; untitled reviewUri; untitled cafeUri].
Proof.
  apply (@uniqueUrls_first_occurrences_when_titles_agree
           [untitled cafeUri; untitled reviewUri; untitled cafeUri]).
  intros a b Ha Hb _.
  simpl in Ha, Hb.
  destruct Ha as [<-|[<-|[<-|[]]]]; destruct Hb as [<-|[<-|[<-|[]]]]; reflexivity.
Defined.

(** X5. The prompt that [getPlaceInfo] sends is never empty and has no
    white space at either end, whatever prompt it is given. *)
Theorem getPlaceInfo_sends_clean_prompt (api : Api) (c : LatLng) (q : jsstring)
    (w : Effects) :
  exists request,
    requests (snd (getPlaceInfo api c q w)) = requests w ++ [request]
    /\ contents request <> []
    /\ Js.trim (contents request) = contents request.
Proof.
  exists (requestFor c q). split; [|split].
  - rewrite getPlaceInfo_unfold; simpl.
    destruct (api (requestFor c q)) as [response|e];
      [destruct (text response); [destruct (extractUrls response)|]|]; reflexivity.
  - unfold requestFor, effectiveQuery; simpl.
    destruct (Js.trim q); simpl; discriminate.
  - unfold requestFor, effectiveQuery; simpl.
    destruct (Js.trim q) eqn:E; simpl.
    + vm_compute; reflexivity.
    + rewrite <- E; apply trim_idempotent.
Qed.

(** X6. [getPlaceInfo] writes to the console exactly when it fails: a call
    that returns leaves the console as it was, and a call that throws adds a
    line. *)
Theorem getPlaceInfo_logs_iff_fails (api : Api) (c : LatLng) (q : jsstring) (w : Effects) :
  (exists res, fst (getPlaceInfo api c q w) = inl res)
  <-> console (snd (getPlaceInfo api c q w)) = console w.
Proof.
  rewrite getPlaceInfo_unfold; simpl.
  assert (G : forall (l : list (jsstring * JsThrown)) x, l ++ [x] <> l).
  { intros l x H. apply (f_equal (@List.length _)) in H.
    rewrite length_app in H; simpl in H; lia. }
  destruct (api (requestFor c q)) as [response|e];
    [destruct (text response); [destruct (extractUrls response)|]|]; simpl.
  - split; [reflexivity | intros _; eexists; reflexivity].
  - split; [intros [res H]; discriminate H | intros H; apply G in H; destruct H].
  - split; [intros [res H]; discriminate H | intros H; apply G in H; destruct H].
  - split; [intros [res H]; discriminate H | intros H; apply G in H; destruct H].
Qed.

Lemma getPlaceInfo_logs_iff_fails_witness :
  console (snd (getPlaceInfo (respond (responseWith (Some (Js.lit "ok")) None))
                  defaultKottayamCoords (Js.lit "cafes") noEffects))
  = console noEffects.
Proof.
  apply (proj1 (getPlaceInfo_logs_iff_fails
                  (respond (responseWith (Some (Js.lit "ok")) None))
                  defaultKottayamCoords (Js.lit "cafes") noEffects)).
  eexists; vm_compute; reflexivity.
Defined.

(** X7. When the place answer sources of every chunk can be iterated
    (they are an array, or absent), the extraction completes with the
    contributions of the chunks one after the other, in the order of the
    chunks, and a chunk whose "maps" annotation has a URI contributes its
    titled link first and then the untitled links of its review snippets.
    When the sources of some chunk cannot be iterated, the extraction throws
    and no link is returned. *)
Theorem extractUrls_in_chunk_order (response : GenerateContentResponse)
    (chunks : list GroundingChunk) :
  responseChunks response = Some chunks ->
  (forallb iterableSources chunks = true ->
   extractUrls response = inl (flat_map chunkLinks chunks))
  /\ (forallb iterableSources chunks = false ->
      extractUrls response = inr notIterable)
  /\ forall chunk m u sources urls,
       maps chunk = Some m -> maps_uri m = Some u -> u <> [] ->
       placeAnswerSources m = Some (SourcesArray sources) ->
       chunkLinks chunk
       = {| uri := u; title := maps_title m |} :: List.map untitled (nestedUris m)
       /\ pushChunk urls chunk
          = inl (urls ++ {| uri := u; title := maps_title m |}
                      :: List.map untitled (nestedUris m)).
Proof.
  intros H. rewrite (@extractUrls_chunks response chunks H). split; [|split].
  - intros ->; reflexivity.
  - intros ->; reflexivity.
  - intros chunk m u sources urls Hm Hu Hne Hs.
    assert (L : chunkLinks chunk
                = {| uri := u; title := maps_title m |} :: List.map untitled (nestedUris m)).
    { unfold chunkLinks, directLink. rewrite Hm, Hu.
      destruct u; [congruence | reflexivity]. }
    split; [exact L|].
    rewrite pushChunk_spec. unfold iterableSources. rewrite Hm, Hs, L; reflexivity.
Qed.

Lemma extractUrls_in_chunk_order_witness :
  extractUrls (responseWith None (Some [reviewedCafe; reviewsOnly]))
  = inl [ {| uri := cafeUri; title := Some (Js.lit "Cafe A") |}; untitled cafeUri;
          untitled reviewUri; untitled cafeUri ]
  /\ extractUrls (responseWith None (Some [reviewedCafe; declaredShape])) = inr notIterable
  /\ pushChunk [untitled reviewUri] reviewedCafe
     = inl ([untitled reviewUri]
            ++ {| uri := cafeUri; title := Some (Js.lit "Cafe A") |} :: [untitled cafeUri]).
Proof.
  destruct (@extractUrls_in_chunk_order
              (responseWith None (Some [reviewedCafe; reviewsOnly]))
              [reviewedCafe; reviewsOnly] eq_refl) as [A [_ B]].
  destruct (@extractUrls_in_chunk_order
              (responseWith None (Some [reviewedCafe; declaredShape]))
              [reviewedCafe; declaredShape] eq_refl) as [_ [T _]].
  split; [|split].
  - rewrite A by reflexivity. reflexivity.
  - apply T; reflexivity.
  - refine (proj2 (B reviewedCafe _ cafeUri _ [untitled reviewUri]
                     eq_refl eq_refl _ eq_refl)).
    vm_compute; discriminate.
Defined.

(** ** The composer, further *)

Lemma userClause_trim (p : jsstring) : userClause (Js.trim p) = userClause p.
Proof. unfold userClause. rewrite trim_idempotent; reflexivity. Qed.

(** X8. The composed prompt depends on the free text only through its
    trimmed form; a text of white space alone composes the same prompt as
    no text. *)
Theorem composeQuery_free_text_trimmed (sc : SearchContext) (fc p : jsstring) :
  composeQuery sc fc p = composeQuery sc fc (Js.trim p)
  /\ (Js.trim p = [] -> composeQuery sc fc p = composeQuery sc fc []).
Proof.
  split.
  - rewrite !composeQuery_clauses, userClause_trim; reflexivity.
  - intros E. rewrite !composeQuery_clauses. unfold userClause.
    rewrite E; reflexivity.
Qed.

Lemma composeQuery_free_text_trimmed_witness :
  Js.trim [9%N; 32%N; 10%N] = []
  /\ composeQuery currentLocation (Js.lit "hotels") [9%N; 32%N; 10%N]
     = composeQuery currentLocation (Js.lit "hotels") [].
Proof.
  split; [reflexivity|].
  apply (proj2 (composeQuery_free_text_trimmed currentLocation (Js.lit "hotels")
                  [9%N; 32%N; 10%N])).
  reflexivity.
Defined.

(** X9. Every composed prompt opens with the instructions of lines 104-107
    and closes with the sentence that names the area of the search context:
    "Kottayam city" for the city, "this area near my current location"
    otherwise. *)
Theorem composeQuery_frame (sc : SearchContext) (fc p : jsstring) :
  exists middle,
    composeQuery sc fc p
    = queryPreamble ++ middle
      ++ Js.lit " Provide details for places in "
      ++ match sc with
         | kottayam => Js.lit "Kottayam city"
         | currentLocation => Js.lit "this area near my current location"
         end
      ++ Js.lit ".".
Proof.
  exists (userClause p ++ categoryClause fc).
  rewrite composeQuery_clauses. unfold areaClause.
  rewrite <- ?app_assoc; reflexivity.
Qed.

Lemma find_value_none (fc : jsstring) :
  (forall label, ~ In (fc, label) filterOptions) ->
  find (fun opt => Js.eqb (fst opt) fc) filterOptions = None.
Proof.
  intros H. destruct (find _ filterOptions) as [[v l]|] eqn:E; [|reflexivity].
  apply find_some in E. destruct E as [Hin Heq]. simpl in Heq.
  apply eqb_eq in Heq; subst v. exfalso; apply (H l); exact Hin.
Qed.

(** X10. A filter value that is none of the options has no label: the
    prompt then asks for the category "undefined". *)
Theorem composeQuery_unknown_category (sc : SearchContext) (fc p : jsstring) :
  (forall label, ~ In (fc, label) filterOptions) ->
  Js.includes (composeQuery sc fc p)
    (Js.lit " Specifically focus on results in the " ++ quoted (Js.lit "undefined")
     ++ Js.lit " category.") = true.
Proof.
  intros H. apply includes_Contains.
  assert (N : Js.eqb fc (Js.lit "all") = false).
  { apply eqb_neq. intros ->. apply (H (Js.lit "All Categories")). left; reflexivity. }
  pose proof (composeQuery_categoryClause sc fc p) as C.
  unfold categoryClause in C. rewrite N, (find_value_none H) in C. exact C.
Qed.

Lemma composeQuery_unknown_category_witness :
  Js.includes (composeQuery kottayam (Js.lit "museums") (Js.lit "art"))
    (Js.lit " Specifically focus on results in the " ++ quoted (Js.lit "undefined")
     ++ Js.lit " category.") = true.
Proof.
  apply (@composeQuery_unknown_category kottayam (Js.lit "museums") (Js.lit "art")).
  intros label H. vm_compute in H.
  repeat (destruct H as [H|H]; [discriminate H|]). exact H.
Defined.

(** ** The search handler, further *)

Lemma composeQuery_not_default (sc : SearchContext) (fc p : jsstring) :
  composeQuery sc fc p <> defaultQuery.
Proof.
  rewrite composeQuery_clauses. intros H.
  apply (f_equal (@hd N 0%N)) in H. vm_compute in H. discriminate H.
Qed.

(** X11. A search that is not refused issues exactly one call, and the
    prompt of that call is the composed prompt as it is: the service
    neither trims anything off it nor replaces it by its default prompt. *)
Theorem handleSearch_sends_composed_prompt (api : Api) (s : AppState) (w : Effects)
    (targetCoords : LatLng) (locationDescription : jsstring) :
  resolveTarget s = Resolved (Some targetCoords) locationDescription ->
  List.map contents (requests (snd (handleSearch api s w)))
  = List.map contents (requests w)
    ++ [composeQuery (searchContext s) (filterCategory s) (prompt s)]
  /\ composeQuery (searchContext s) (filterCategory s) (prompt s) <> defaultQuery.
Proof.
  intros H. split; [|apply composeQuery_not_default].
  rewrite (@handleSearch_issues_call api s w targetCoords locationDescription H).
  rewrite map_app; simpl. rewrite effectiveQuery_composeQuery; reflexivity.
Qed.

Lemma handleSearch_sends_composed_prompt_witness :
  List.map contents
    (requests (snd (handleSearch (failWith failedToFetch)
                      (setSearchContext kottayam staleState) noEffects)))
  = List.map contents (requests noEffects)
    ++ [composeQuery kottayam (Js.lit "restaurants") (Js.lit "cafes")].
Proof.
  apply (proj1 (@handleSearch_sends_composed_prompt (failWith failedToFetch)
                  (setSearchContext kottayam staleState) noEffects
                  defaultKottayamCoords (Js.lit "Kottayam city") eq_refl)).
Defined.

(** X12. A search of the city always goes ahead with the coordinates of
    the city centre, whatever the geolocation has given; a search of the
    current location with a determined position goes ahead with that
    position. *)
Theorem handleSearch_target (api : Api) (s : AppState) (w : Effects) :
  (searchContext s = kottayam ->
   List.map retrieval_latLng (requests (snd (handleSearch api s w)))
   = List.map retrieval_latLng (requests w) ++ [defaultKottayamCoords])
  /\ (forall loc,
        searchContext s = currentLocation ->
        actualUserLocationDetermined s = true ->
        userLocation s = Some loc ->
        List.map retrieval_latLng (requests (snd (handleSearch api s w)))
        = List.map retrieval_latLng (requests w) ++ [loc]).
Proof.
  split.
  - intros Hc.
    rewrite (@handleSearch_issues_call api s w defaultKottayamCoords (Js.lit "Kottayam city"))
      by (unfold resolveTarget; rewrite Hc; reflexivity).
    rewrite map_app; reflexivity.
  - intros loc Hc Hd Hl.
    rewrite (@handleSearch_issues_call api s w loc (Js.lit "your current location"))
      by (unfold resolveTarget; rewrite Hc, Hd, Hl; reflexivity).
    rewrite map_app; simpl. destruct loc; reflexivity.
Qed.

Lemma handleSearch_target_witness :
  List.map retrieval_latLng
    (requests (snd (handleSearch (failWith failedToFetch)
                      (setSearchContext kottayam staleState) noEffects)))
  = [defaultKottayamCoords]
  /\ List.map retrieval_latLng
       (requests (snd (handleSearch (failWith failedToFetch)
                         (onGeoSuccess {| latitude := 9.9312%float; longitude := 76.2673%float |}
                            staleState) noEffects)))
     = [{| latitude := 9.9312%float; longitude := 76.2673%float |}].
Proof.
  split.
  - apply (proj1 (handleSearch_target (failWith failedToFetch)
                    (setSearchContext kottayam staleState) noEffects)).
    reflexivity.
  - apply (proj2 (handleSearch_target (failWith failedToFetch)
                    (onGeoSuccess {| latitude := 9.9312%float; longitude := 76.2673%float |}
                       staleState) noEffects)
             {| latitude := 9.9312%float; longitude := 76.2673%float |});
      reflexivity.
Defined.

Lemma handleSearch_resolved (api : Api) (s : AppState) (w : Effects)
    (c : LatLng) (d : jsstring) :
  resolveTarget s = Resolved (Some c) d ->
  handleSearch api s w
  = (settle d (fst (getPlaceInfo api c (composeQuery (searchContext s) (filterCategory s)
                                          (prompt s)) w))
       (pendingState s),
     logOutcome (fst (getPlaceInfo api c (composeQuery (searchContext s) (filterCategory s)
                                            (prompt s)) w))
       (snd (getPlaceInfo api c (composeQuery (searchContext s) (filterCategory s)
                                   (prompt s)) w))).
Proof.
  intros H. unfold handleSearch. rewrite H.
  destruct (getPlaceInfo api c _ w) as [outcome w']; reflexivity.
Qed.

Lemma resolveTarget_cases (s : AppState) :
  resolveTarget s = Refused locationRefusal
  \/ resolveTarget s = Resolved (Some defaultKottayamCoords) (Js.lit "Kottayam city")
  \/ exists loc, resolveTarget s = Resolved (Some loc) (Js.lit "your current location").
Proof.
  unfold resolveTarget. destruct (searchContext s); [right; left; reflexivity|].
  destruct (actualUserLocationDetermined s); [|left; reflexivity].
  destruct (userLocation s) as [loc|]; [right; right; exists loc|left]; reflexivity.
Qed.

Lemma settlePlaceInfo_success (response : GenerateContentResponse) (body : jsstring)
    (cands : list GroundingUrl) (w : Effects) :
  text response = Some body -> extractUrls response = inl cands ->
  settlePlaceInfo (inl response) w
  = (inl {| summary := Js.trim body; places := []; urls := uniqueUrls cands |}, w).
Proof.
  intros Ht He.
  unfold settlePlaceInfo, try_catch, bind, liftResult, processResponse, ret.
  rewrite Ht, He; reflexivity.
Qed.

(** X13. When the API answers the pending call with a response that has a
    text and whose links can be extracted, the handler stores the trimmed
    text as the summary and the deduplicated links, and stops loading; it
    writes nothing to the console and does not touch the error, which is as
    it was at that moment: none when the answer follows the click with no
    event between them, and otherwise whatever a callback has set since. *)
Theorem answer_stores_results (cfg : Config) (call : PendingCall)
    (response : GenerateContentResponse) (body : jsstring) (cands : list GroundingUrl) :
  text response = Some body ->
  extractUrls response = inl cands ->
  (generalSummary (ui (apiAnswers (inl response) call cfg)) = Some (Js.trim body)
   /\ responseUrls (ui (apiAnswers (inl response) call cfg)) = uniqueUrls cands
   /\ loading (ui (apiAnswers (inl response) call cfg)) = false
   /\ error (ui (apiAnswers (inl response) call cfg)) = error (ui cfg)
   /\ world (apiAnswers (inl response) call cfg) = world cfg
   /\ inFlight (apiAnswers (inl response) call cfg) = None)
  /\ forall s w c d,
       resolveTarget s = Resolved (Some c) d ->
       error (ui (apiAnswers (inl response) call
                    (clickSearch {| ui := s; inFlight := None; world := w |})))
       = None.
Proof.
  intros Ht He.
  assert (A : forall cfg0,
             apiAnswers (inl response) call cfg0
             = {| ui := settle (call_description call)
                          (inl {| summary := Js.trim body; places := [];
                                  urls := uniqueUrls cands |}) (ui cfg0);
                  inFlight := None; world := world cfg0 |}).
  { intros cfg0. unfold apiAnswers.
    rewrite (@settlePlaceInfo_success response body cands (world cfg0) Ht He).
    reflexivity. }
  split.
  - rewrite A. cbn. repeat split.
  - intros s w c d R. rewrite A. unfold clickSearch. cbn [ui]. rewrite R. reflexivity.
Qed.

Lemma answer_stores_results_witness :
  generalSummary
    (ui (apiAnswers (inl (responseWith (Some (Js.lit " Two cafes. ")) (Some [reviewedCafe])))
           sampleCall (configAfter sampleInterrupted)))
  = Some (Js.trim (Js.lit " Two cafes. "))
  /\ error
       (ui (apiAnswers (inl (responseWith (Some (Js.lit " Two cafes. ")) (Some [reviewedCafe])))
              sampleCall (configAfter sampleInterrupted)))
     = Some (Js.lit "Request timed out." ++ geoGuidance)
  /\ error
       (ui (apiAnswers (inl (responseWith (Some (Js.lit " Two cafes. ")) (Some [reviewedCafe])))
              sampleCall (configAfter samplePending)))
     = None.
Proof.
  destruct (@answer_stores_results (configAfter sampleInterrupted) sampleCall
              (responseWith (Some (Js.lit " Two cafes. ")) (Some [reviewedCafe]))
              (Js.lit " Two cafes. ")
              [ {| uri := cafeUri; title := Some (Js.lit "Cafe A") |}; untitled cafeUri ]
              eq_refl eq_refl) as [[G [_ [_ [E _]]]] _].
  destruct (@answer_stores_results (configAfter samplePending) sampleCall
              (responseWith (Some (Js.lit " Two cafes. ")) (Some [reviewedCafe]))
              (Js.lit " Two cafes. ")
              [ {| uri := cafeUri; title := Some (Js.lit "Cafe A") |}; untitled cafeUri ]
              eq_refl eq_refl) as [[_ [_ [_ [E' _]]]] _].
  split; [exact G | split].
  - rewrite E. vm_compute; reflexivity.
  - rewrite E'. vm_compute; reflexivity.
Defined.

(** X14. When the call fails, whatever was thrown, the handler shows the
    same message for the location, clears the summary and the links of the
    search before, and stops loading; the console gets the line of the
    service and the line of the handler. *)
Theorem handleSearch_failure (api : Api) (s : AppState) (w : Effects)
    (c : LatLng) (d : jsstring) (e : JsThrown) :
  resolveTarget s = Resolved (Some c) d ->
  api (requestFor c (composeQuery (searchContext s) (filterCategory s) (prompt s)))
  = inr e ->
  error (fst (handleSearch api s w)) = Some (fetchFailureMessage d)
  /\ generalSummary (fst (handleSearch api s w)) = None
  /\ responseUrls (fst (handleSearch api s w)) = []
  /\ loading (fst (handleSearch api s w)) = false
  /\ console (snd (handleSearch api s w))
     = console w ++ [(errorLabel, e); (Js.lit "API call error:", failedToFetch)].
Proof.
  intros H Ha. rewrite (@handleSearch_resolved api s w c d H).
  rewrite getPlaceInfo_unfold. cbv zeta. rewrite Ha. simpl.
  rewrite <- app_assoc. repeat split.
Qed.

Lemma handleSearch_failure_witness :
  let api := failWith (OtherValue (Js.lit "socket hang up")) in
  let s := setSearchContext kottayam staleState in
  error (fst (handleSearch api s noEffects))
  = Some (Js.lit "Error fetching data for Kottayam city: Failed to fetch information. Please check your network and try again.")
  /\ generalSummary (fst (handleSearch api s noEffects)) = None
  /\ responseUrls (fst (handleSearch api s noEffects)) = [].
Proof.
  intros api s.
  destruct (@handleSearch_failure api s noEffects defaultKottayamCoords (Js.lit "Kottayam city")
              (OtherValue (Js.lit "socket hang up")) eq_refl eq_refl) as [E [G [U _]]].
  split; [rewrite E; vm_compute; reflexivity | split; assumption].
Defined.

(** X15. Whatever the state and the API, the error that [handleSearch]
    leaves is none, the refusal, or the fetch failure for one of the two
    locations; the messages of lines 89 and 134 are never shown. *)
Theorem handleSearch_error_messages (api : Api) (s : AppState) (w : Effects) :
  (error (fst (handleSearch api s w)) = None
   \/ error (fst (handleSearch api s w)) = Some locationRefusal
   \/ error (fst (handleSearch api s w)) = Some (fetchFailureMessage (Js.lit "Kottayam city"))
   \/ error (fst (handleSearch api s w))
      = Some (fetchFailureMessage (Js.lit "your current location")))
  /\ error (fst (handleSearch api s w))
     <> Some (Js.lit "Unable to determine search location. Please try again.")
  /\ forall d, error (fst (handleSearch api s w))
               <> Some (Js.lit "An unexpected error occurred while fetching data for "
                          ++ d ++ Js.lit ".").
Proof.
  assert (T : error (fst (handleSearch api s w)) = None
   \/ error (fst (handleSearch api s w)) = Some locationRefusal
   \/ error (fst (handleSearch api s w)) = Some (fetchFailureMessage (Js.lit "Kottayam city"))
   \/ error (fst (handleSearch api s w))
      = Some (fetchFailureMessage (Js.lit "your current location"))).
  { destruct (resolveTarget_cases s) as [R|[R|[loc R]]].
    - right; left. unfold handleSearch; rewrite R; reflexivity.
    - rewrite (@handleSearch_resolved api s w _ _ R), getPlaceInfo_unfold. cbv zeta.
      destruct (api _) as [response|e];
        [destruct (text response); [destruct (extractUrls response)|]|]; simpl; auto.
    - rewrite (@handleSearch_resolved api s w _ _ R), getPlaceInfo_unfold. cbv zeta.
      destruct (api _) as [response|e];
        [destruct (text response); [destruct (extractUrls response)|]|]; simpl; auto. }
  split; [exact T|]. split.
  - destruct T as [E|[E|[E|E]]]; rewrite E; try discriminate;
      intros H; inversion H as [H']; vm_compute in H'; discriminate H'.
  - intros d. destruct T as [E|[E|[E|E]]]; rewrite E; try discriminate;
      intros H; inversion H as [H']; apply (f_equal (@hd N 0%N)) in H';
      vm_compute in H'; discriminate H'.
Qed.

(** X16. [handleSearch] never touches the form or the position: the
    search context, the filter, the free text, the user's location and the
    flag of its determination are after the handler what they were before,
    on every path. *)
Theorem handleSearch_keeps_form (api : Api) (s : AppState) (w : Effects) :
  searchContext (fst (handleSearch api s w)) = searchContext s
  /\ filterCategory (fst (handleSearch api s w)) = filterCategory s
  /\ prompt (fst (handleSearch api s w)) = prompt s
  /\ userLocation (fst (handleSearch api s w)) = userLocation s
  /\ actualUserLocationDetermined (fst (handleSearch api s w))
     = actualUserLocationDetermined s.
Proof.
  destruct (resolveTarget_cases s) as [R|[R|[loc R]]].
  - unfold handleSearch; rewrite R; repeat split.
  - rewrite (@handleSearch_resolved api s w _ _ R).
    destruct (fst (getPlaceInfo _ _ _ _)) as [res|[m|v]]; repeat split.
  - rewrite (@handleSearch_resolved api s w _ _ R).
    destruct (fst (getPlaceInfo _ _ _ _)) as [res|[m|v]]; repeat split.
Qed.

(** X17. An answer whose text is white space alone and that cites
    nothing puts neither a summary nor links on the page, and leaves the
    error as it was at that moment: when the answer follows the click with
    no event between them the page shows nothing at all, no summary, no
    links and no error; a banner that a callback has set during the call
    stays. *)
Theorem blank_answer_shows_nothing (cfg : Config) (call : PendingCall)
    (response : GenerateContentResponse) (body : jsstring) :
  text response = Some body ->
  Js.trim body = [] ->
  extractUrls response = inl [] ->
  (showsSummary (ui (apiAnswers (inl response) call cfg)) = false
   /\ showsLinks (ui (apiAnswers (inl response) call cfg)) = false
   /\ error (ui (apiAnswers (inl response) call cfg)) = error (ui cfg))
  /\ forall s w c d,
       resolveTarget s = Resolved (Some c) d ->
       showsError (ui (apiAnswers (inl response) call
                         (clickSearch {| ui := s; inFlight := None; world := w |})))
       = false.
Proof.
  intros Ht Hb He.
  assert (A : forall cfg0,
             apiAnswers (inl response) call cfg0
             = {| ui := settle (call_description call)
                          (inl {| summary := []; places := []; urls := [] |}) (ui cfg0);
                  inFlight := None; world := world cfg0 |}).
  { intros cfg0. unfold apiAnswers.
    rewrite (@settlePlaceInfo_success response body [] (world cfg0) Ht He), Hb.
    reflexivity. }
  split.
  - rewrite A. cbn. repeat split.
  - intros s w c d R. rewrite A. unfold clickSearch. cbn [ui]. rewrite R. reflexivity.
Qed.

Lemma blank_answer_shows_nothing_witness :
  showsSummary (ui (apiAnswers (inl (responseWith (Some (Js.lit "  ")) None)) sampleCall
                      (configAfter sampleInterrupted))) = false
  /\ showsLinks (ui (apiAnswers (inl (responseWith (Some (Js.lit "  ")) None)) sampleCall
                       (configAfter sampleInterrupted))) = false
  /\ showsError (ui (apiAnswers (inl (responseWith (Some (Js.lit "  ")) None)) sampleCall
                       (configAfter sampleInterrupted))) = true
  /\ showsError (ui (apiAnswers (inl (responseWith (Some (Js.lit "  ")) None)) sampleCall
                       (clickSearch {| ui := setSearchContext kottayam staleState;
                                       inFlight := None; world := noEffects |}))) = false.
Proof.
  destruct (@blank_answer_shows_nothing (configAfter sampleInterrupted) sampleCall
              (responseWith (Some (Js.lit "  ")) None) (Js.lit "  ")
              eq_refl eq_refl eq_refl) as [[S [L E]] C].
  split; [exact S | split; [exact L | split]].
  - unfold showsError. rewrite E. vm_compute; reflexivity.
  - apply (C (setSearchContext kottayam staleState) noEffects defaultKottayamCoords
             (Js.lit "Kottayam city")). reflexivity.
Defined.

(** ** The geolocation callbacks *)

(** X18. After a geolocation error the position falls back to the city
    centre and is marked as not determined, and the search context is left
    as it is: a search of the city then goes ahead with the coordinates of
    the city centre, and a search of the current location is refused
    without a call. *)
Theorem search_after_geolocation_error (api : Api) (geoError : GeolocationPositionError)
    (s : AppState) (w : Effects) :
  userLocation (fst (onGeoError geoError s w)) = Some defaultKottayamCoords
  /\ actualUserLocationDetermined (fst (onGeoError geoError s w)) = false
  /\ searchContext (fst (onGeoError geoError s w)) = searchContext s
  /\ (searchContext s = kottayam ->
      List.map retrieval_latLng
        (requests (snd (handleSearch api (fst (onGeoError geoError s w)) w)))
      = List.map retrieval_latLng (requests w) ++ [defaultKottayamCoords])
  /\ (searchContext s = currentLocation ->
      handleSearch api (fst (onGeoError geoError s w)) w
      = (setError (Some locationRefusal) (fst (onGeoError geoError s w)), w)).
Proof.
  split; [reflexivity|]. split; [reflexivity|]. split; [reflexivity|]. split.
  - intros Hc.
    rewrite (@handleSearch_issues_call api _ w defaultKottayamCoords (Js.lit "Kottayam city"))
      by (unfold resolveTarget; simpl; rewrite Hc; reflexivity).
    rewrite map_app; reflexivity.
  - intros Hc. unfold handleSearch.
    rewrite resolveTarget_refused; [reflexivity | exact Hc | reflexivity].
Qed.

Lemma search_after_geolocation_error_witness :
  let geoError := {| geo_code := PERMISSION_DENIED; geo_message := Js.lit "User denied Geolocation" |} in
  List.map retrieval_latLng
    (requests (snd (handleSearch (failWith failedToFetch)
                      (fst (onGeoError geoError initialState noEffects)) noEffects)))
  = [defaultKottayamCoords]
  /\ handleSearch (failWith failedToFetch) (fst (onGeoError geoError staleState noEffects)) noEffects
     = (setError (Some locationRefusal) (fst (onGeoError geoError staleState noEffects)), noEffects).
Proof.
  intros geoError.
  destruct (search_after_geolocation_error (failWith failedToFetch) geoError
              initialState noEffects) as [_ [_ [_ [K _]]]].
  destruct (search_after_geolocation_error (failWith failedToFetch) geoError
              staleState noEffects) as [_ [_ [_ [_ C]]]].
  split; [apply K; reflexivity | apply C; reflexivity].
Defined.

(** X19. The banner after a geolocation error depends on the code of the
    error alone, never on the message the platform gives; it always ends
    with the same guidance; and the number of the code is printed only for
    a code other than the three named ones. *)
Theorem geolocation_error_banner (geoError : GeolocationPositionError)
    (s : AppState) (w : Effects) :
  (forall other, geo_code other = geo_code geoError ->
                 fst (onGeoError other s w) = fst (onGeoError geoError s w))
  /\ (exists opening,
        error (fst (onGeoError geoError s w)) = Some (opening ++ geoGuidance)
        /\ (geo_code geoError = PERMISSION_DENIED -> opening = Js.lit "Permission denied.")
        /\ (geo_code geoError = POSITION_UNAVAILABLE -> opening = Js.lit "Position unavailable.")
        /\ (geo_code geoError = TIMEOUT -> opening = Js.lit "Request timed out.")
        /\ (geo_code geoError <> PERMISSION_DENIED ->
            geo_code geoError <> POSITION_UNAVAILABLE ->
            geo_code geoError <> TIMEOUT ->
            opening = Js.lit "Geolocation failed (Code: " ++ decimal (geo_code geoError)
                      ++ Js.lit "):")).
Proof.
  split.
  - intros other E. unfold onGeoError, geoErrorMessage; simpl. rewrite E; reflexivity.
  - exists (geoErrorMessage geoError). split; [reflexivity|].
    unfold geoErrorMessage. repeat split.
    + intros ->; reflexivity.
    + intros ->; reflexivity.
    + intros ->; reflexivity.
    + intros H1 H2 H3. apply N.eqb_neq in H1, H2, H3. rewrite H1, H2, H3; reflexivity.
Qed.

Lemma geolocation_error_banner_witness :
  error (fst (onGeoError {| geo_code := 7; geo_message := Js.lit "weird" |} initialState noEffects))
  = Some (Js.lit "Geolocation failed (Code: 7):" ++ geoGuidance)
  /\ error (fst (onGeoError {| geo_code := TIMEOUT; geo_message := Js.lit "slow" |}
                   initialState noEffects))
     = Some (Js.lit "Request timed out." ++ geoGuidance).
Proof.
  destruct (geolocation_error_banner {| geo_code := 7; geo_message := Js.lit "weird" |}
              initialState noEffects) as [_ [o1 [E1 [_ [_ [_ O1]]]]]].
  destruct (geolocation_error_banner {| geo_code := TIMEOUT; geo_message := Js.lit "slow" |}
              initialState noEffects) as [_ [o2 [E2 [_ [_ [O2 _]]]]]].
  split.
  - rewrite E1, O1 by (vm_compute; discriminate). reflexivity.
  - rewrite E2, O2 by reflexivity. reflexivity.
Defined.

(** X20. Once the position has arrived, the error banner is cleared, and
    a search of the current location goes ahead with exactly that
    position. *)
Theorem search_after_geolocation_success (api : Api) (position : LatLng)
    (s : AppState) (w : Effects) :
  error (onGeoSuccess position s) = None
  /\ List.map retrieval_latLng
       (requests (snd (handleSearch api
                         (setSearchContext currentLocation (onGeoSuccess position s)) w)))
     = List.map retrieval_latLng (requests w) ++ [position].
Proof.
  split; [reflexivity|].
  rewrite (@handleSearch_issues_call api _ w position (Js.lit "your current location"))
    by (destruct position; reflexivity).
  rewrite map_app; simpl. destruct position; reflexivity.
Qed.

(** X21. On a platform without geolocation the search context is forced
    to the city: the "current location" radio is disabled, and the next
    search goes ahead with the coordinates of the city centre, whatever the
    state was. *)
Theorem search_without_geolocation (api : Api) (s : AppState) (w : Effects) :
  searchContext (onGeoUnsupported s) = kottayam
  /\ currentLocationRadioDisabled (onGeoUnsupported s) = true
  /\ searchButtonDisabled (onGeoUnsupported s) = loading s
  /\ List.map retrieval_latLng (requests (snd (handleSearch api (onGeoUnsupported s) w)))
     = List.map retrieval_latLng (requests w) ++ [defaultKottayamCoords].
Proof.
  split; [reflexivity|]. split.
  - unfold currentLocationRadioDisabled, isCurrentLocationSearchDisabled; simpl.
    apply orb_true_r.
  - split.
    + unfold searchButtonDisabled; simpl. apply orb_false_r.
    + rewrite (@handleSearch_issues_call api _ w defaultKottayamCoords (Js.lit "Kottayam city"))
        by reflexivity.
      rewrite map_app; reflexivity.
Qed.

(** ** The controller as a machine *)

Lemma settle_fields (d : jsstring) (outcome : MapsGroundingResult + JsThrown)
    (s : AppState) :
  loading (settle d outcome s) = false
  /\ filterCategory (settle d outcome s) = filterCategory s
  /\ userLocation (settle d outcome s) = userLocation s
  /\ actualUserLocationDetermined (settle d outcome s) = actualUserLocationDetermined s.
Proof. destruct outcome as [res|[m|v]]; repeat split. Qed.

Lemma Invariant_initial : Invariant initialConfig.
Proof.
  split; [discriminate|]. split.
  - split; [discriminate | intros H; exfalso; apply H; reflexivity].
  - exists (Js.lit "All Categories"); left; reflexivity.
Qed.

Lemma searchButton_enabled (s : AppState) :
  searchButtonDisabled s = false ->
  loading s = false
  /\ (searchContext s = currentLocation -> actualUserLocationDetermined s = true).
Proof.
  unfold searchButtonDisabled. intros H. apply orb_false_elim in H. destruct H as [L H].
  split; [exact L|]. intros Hc. rewrite Hc in H; simpl in H.
  destruct (actualUserLocationDetermined s); [reflexivity | discriminate H].
Qed.

Lemma Invariant_step (e : Event) (cfg cfg' : Config) :
  Invariant cfg -> step e cfg = Some cfg' -> Invariant cfg'.
Proof.
  intros [Iloc [Iload Ifilter]] H. unfold Invariant.
  destruct e as [position|geoError| |c|v|t| |answer]; cbn [step] in H; cbv beta zeta in H.
  - inversion H; subst; simpl. repeat split; try apply Iload; auto; discriminate.
  - unfold onGeoError in H. inversion H; subst; simpl.
    repeat split; try apply Iload; auto; discriminate.
  - inversion H; subst; simpl. repeat split; try apply Iload; auto; discriminate.
  - destruct c.
    + destruct (inputsDisabled (ui cfg)); [discriminate|].
      inversion H; subst; simpl. repeat split; try apply Iload; auto.
    + destruct (currentLocationRadioDisabled (ui cfg)); [discriminate|].
      inversion H; subst; simpl. repeat split; try apply Iload; auto.
  - destruct (inputsDisabled (ui cfg)); [discriminate|].
    destruct (existsb _ filterOptions) eqn:E; [|discriminate].
    inversion H; subst; simpl. repeat split; try apply Iload; auto.
    apply existsb_exists in E. destruct E as [[v' label] [Hin Heq]].
    simpl in Heq. apply eqb_eq in Heq; subst v'. exists label; exact Hin.
  - destruct (inputsDisabled (ui cfg)); [discriminate|].
    inversion H; subst; simpl. repeat split; try apply Iload; auto.
  - destruct (searchButtonDisabled (ui cfg)) eqn:B; [discriminate|].
    apply searchButton_enabled in B. destruct B as [L _].
    assert (NF : inFlight cfg = None).
    { destruct (inFlight cfg) eqn:F; [|reflexivity].
      assert (T : loading (ui cfg) = true) by (apply Iload; discriminate).
      rewrite L in T; discriminate T. }
    inversion H; subst; clear H. unfold clickSearch.
    destruct (resolveTarget (ui cfg)) as [[loc|] d|m]; simpl.
    + repeat split; auto; try discriminate.
    + repeat split; auto; rewrite ?L, ?NF; try discriminate; intros X; exfalso; apply X; reflexivity.
    + repeat split; auto; rewrite ?L, ?NF; try discriminate; intros X; exfalso; apply X; reflexivity.
  - destruct (inFlight cfg) as [call|]; [|discriminate].
    inversion H; subst; clear H. unfold apiAnswers.
    destruct (settlePlaceInfo _ _) as [outcome w']; cbn [ui inFlight world].
    destruct (settle_fields (call_description call) outcome (ui cfg)) as [L [F [U D]]].
    rewrite L, F, U, D. repeat split; auto; try discriminate.
Qed.

Lemma Invariant_run (events : list Event) (cfg cfg' : Config) :
  Invariant cfg -> run events cfg = Some cfg' -> Invariant cfg'.
Proof.
  revert cfg; induction events as [|e events IH]; intros cfg I H; simpl in H.
  - inversion H; subst; exact I.
  - destruct (step e cfg) as [cfg1|] eqn:E; [|discriminate].
    apply (IH cfg1); [apply (Invariant_step e I E) | exact H].
Qed.

Lemma Invariant_reachable (cfg : Config) : Reachable cfg -> Invariant cfg.
Proof. intros [events H]. apply (Invariant_run events Invariant_initial H). Qed.

(** X22. In every configuration that a run of events reaches, the loading
    flag is up exactly while a call is pending, and a click on the search
    button is then without effect: at most one search is in flight. *)
Theorem one_search_in_flight (events : list Event) (cfg : Config) :
  run events initialConfig = Some cfg ->
  (loading (ui cfg) = true <-> inFlight cfg <> None)
  /\ (inFlight cfg <> None -> step ClickSearch cfg = None).
Proof.
  intros H.
  assert (I : Invariant cfg) by (apply Invariant_reachable; exists events; exact H).
  destruct I as [_ [Iload _]]. split; [exact Iload|].
  intros F. apply Iload in F. cbn [step]. cbv zeta.
  unfold searchButtonDisabled. rewrite F; reflexivity.
Qed.

Lemma one_search_in_flight_witness :
  loading (ui (configAfter samplePending)) = true
  /\ step ClickSearch (configAfter samplePending) = None.
Proof.
  destruct (@one_search_in_flight samplePending (configAfter samplePending))
    as [[_ L] C]; [vm_compute; reflexivity|].
  assert (F : inFlight (configAfter samplePending) <> None) by (vm_compute; discriminate).
  split; [apply L; exact F | apply C; exact F].
Defined.

(** X23. In every configuration that a run of events reaches, the filter
    is one of the six options, so its label exists and the prompt never
    asks for the category "undefined". *)
Theorem filter_is_an_option (events : list Event) (cfg : Config) :
  run events initialConfig = Some cfg ->
  exists label,
    In (filterCategory (ui cfg), label) filterOptions
    /\ find (fun opt => Js.eqb (fst opt) (filterCategory (ui cfg))) filterOptions
       = Some (filterCategory (ui cfg), label).
Proof.
  intros H.
  assert (I : Invariant cfg) by (apply Invariant_reachable; exists events; exact H).
  destruct I as [_ [_ [label Hin]]]. exists label. split; [exact Hin|].
  unfold filterOptions in Hin. cbn [In] in Hin.
  repeat (destruct Hin as [Hin|Hin];
          [injection Hin as Hv Hl; rewrite <- Hv, <- Hl; vm_compute; reflexivity|]).
  destruct Hin.
Qed.

Lemma filter_is_an_option_witness :
  exists label,
    In (filterCategory (ui (configAfter sampleRun)), label) filterOptions
    /\ find (fun opt => Js.eqb (fst opt) (filterCategory (ui (configAfter sampleRun))))
         filterOptions
       = Some (filterCategory (ui (configAfter sampleRun)), label).
Proof.
  apply (@filter_is_an_option sampleRun (configAfter sampleRun)).
  vm_compute; reflexivity.
Defined.

(** X24. In every configuration that a run of events reaches, a click on
    the search button, when the button is enabled, is never refused: the
    call is prepared, the error is cleared and the page is loading. *)
Theorem enabled_click_starts_a_search (events : list Event) (cfg : Config) :
  run events initialConfig = Some cfg ->
  searchButtonDisabled (ui cfg) = false ->
  exists cfg' call,
    step ClickSearch cfg = Some cfg'
    /\ inFlight cfg' = Some call
    /\ call_query call
       = composeQuery (searchContext (ui cfg)) (filterCategory (ui cfg)) (prompt (ui cfg))
    /\ loading (ui cfg') = true
    /\ error (ui cfg') = None.
Proof.
  intros H B.
  assert (I : Invariant cfg) by (apply Invariant_reachable; exists events; exact H).
  destruct I as [Iloc _].
  cbn [step]. cbv zeta. rewrite B.
  destruct (searchButton_enabled _ B) as [_ D].
  unfold clickSearch, resolveTarget.
  destruct (searchContext (ui cfg)) eqn:C.
  - eexists; eexists; repeat split.
  - specialize (D eq_refl). rewrite D. specialize (Iloc D).
    destruct (userLocation (ui cfg)) as [loc|]; [|congruence].
    eexists; eexists; repeat split.
Qed.

Lemma enabled_click_starts_a_search_witness :
  exists cfg' call,
    step ClickSearch (configAfter (firstn 4 sampleRun)) = Some cfg'
    /\ inFlight cfg' = Some call
    /\ call_query call
       = composeQuery (searchContext (ui (configAfter (firstn 4 sampleRun))))
           (filterCategory (ui (configAfter (firstn 4 sampleRun))))
           (prompt (ui (configAfter (firstn 4 sampleRun))))
    /\ loading (ui cfg') = true
    /\ error (ui cfg') = None.
Proof.
  apply (@enabled_click_starts_a_search (firstn 4 sampleRun)
           (configAfter (firstn 4 sampleRun))); vm_compute; reflexivity.
Defined.

(** The two halves make the handler: the click and then the answer of the
    API to the pending call, with no event between them, leave the state
    and the effects of [handleSearch]. *)
Lemma click_then_answer_is_handleSearch (api : Api) (s : AppState) (w : Effects)
    (c : LatLng) (d : jsstring) :
  resolveTarget s = Resolved (Some c) d ->
  loading s = false ->
  run [ClickSearch;
       ApiAnswers (api (requestFor c (composeQuery (searchContext s) (filterCategory s)
                                        (prompt s))))]
      {| ui := s; inFlight := None; world := w |}
  = Some {| ui := fst (handleSearch api s w);
            inFlight := None;
            world := snd (handleSearch api s w) |}.
Proof.
  intros R L.
  assert (B : searchButtonDisabled s = false).
  { unfold searchButtonDisabled. rewrite L. unfold resolveTarget in R.
    destruct (searchContext s); [reflexivity|].
    destruct (actualUserLocationDetermined s); [reflexivity|discriminate R]. }
  cbn [run step ui]. cbv zeta. rewrite B.
  unfold clickSearch. cbn [ui inFlight world]. rewrite R. cbn [inFlight].
  unfold apiAnswers. cbn [call_coords call_query call_description ui world].
  rewrite (@handleSearch_resolved api s w c d R), getPlaceInfo_split.
  destruct (settlePlaceInfo _ _) as [outcome w']; reflexivity.
Qed.

(** X26. While a call is pending, in every configuration that a run of
    events reaches, the form is frozen and the page shows neither summary
    nor links nor error: every control and the search button are disabled,
    so no event of the form changes the configuration. *)
Theorem pending_search_freezes_the_form (events : list Event) (cfg : Config) :
  run events initialConfig = Some cfg ->
  inFlight cfg <> None ->
  (forall c, step (SelectContext c) cfg = None)
  /\ (forall v, step (SelectFilter v) cfg = None)
  /\ (forall t, step (TypePrompt t) cfg = None)
  /\ step ClickSearch cfg = None
  /\ showsSummary (ui cfg) = false
  /\ showsLinks (ui cfg) = false.
Proof.
  intros H F.
  assert (I : Invariant cfg) by (apply Invariant_reachable; exists events; exact H).
  destruct I as [_ [Iload _]]. apply Iload in F.
  repeat split.
  - intros [|]; cbn [step]; cbv zeta;
      unfold inputsDisabled, currentLocationRadioDisabled; rewrite F; reflexivity.
  - intros v; cbn [step]; cbv zeta; unfold inputsDisabled; rewrite F; reflexivity.
  - intros t; cbn [step]; cbv zeta; unfold inputsDisabled; rewrite F; reflexivity.
  - cbn [step]; cbv zeta; unfold searchButtonDisabled; rewrite F; reflexivity.
  - unfold showsSummary; rewrite F; reflexivity.
  - unfold showsLinks; rewrite F; reflexivity.
Qed.

Lemma pending_search_freezes_the_form_witness :
  step (TypePrompt (Js.lit "tea")) (configAfter samplePending) = None
  /\ step ClickSearch (configAfter samplePending) = None
  /\ showsSummary (ui (configAfter samplePending)) = false.
Proof.
  destruct (@pending_search_freezes_the_form samplePending (configAfter samplePending))
    as [_ [_ [T [C [S _]]]]].
  - vm_compute; reflexivity.
  - vm_compute; discriminate.
  - split; [apply T | split; [exact C | exact S]].
Defined.

(** The request leaves at the click: it is in the effects while the call
    is pending, and the answer adds no second one. *)
Example request_leaves_at_the_click :
  List.map contents (requests (world (configAfter samplePending)))
  = [composeQuery currentLocation (Js.lit "restaurants") (Js.lit " cafes ")]
  /\ requests (world (configAfter sampleRun)) = requests (world (configAfter samplePending)).
Proof. split; vm_compute; reflexivity. Qed.
